(** * jwk-keygen: the key generator, the output namer and the exclusive
      file writer of [main.go], embedded in Rocq.

    The program is a single Go file.  Its functions talk to three
    collaborators that are not part of the repository: the Go cryptographic
    libraries (key generators reading [crypto/rand.Reader]), the operating
    system (open, write, close) and the go-jose library (validation and JSON
    encoding of keys).  The collaborators are kept abstract in a record
    [Env]; the program's own functions are written in a small state monad
    over a [World] that holds the entropy source, the file system and a log
    of every call made to a collaborator. *)

From Stdlib Require Import ZArith Lia Ascii String.
From stdpp Require Import base gmap list strings.

Local Open Scope string_scope.
Local Open Scope list_scope.
Local Open Scope Z_scope.

(** ** Go values *)

(** A byte is an 8-bit value; the masks of the code are written out where
    a byte is taken apart. *)
Definition byte : Type := Z.

(** A Go pointer: [None] is [nil]. *)
Definition ptr (A : Type) : Type := option A.

Inductive Errno := EEXIST | ENOENT | EOther (code : Z).

(** The dynamic value behind Go's [error] interface. *)
Inductive Err :=
| errors_New (msg : string)                       (* errors.New(msg) *)
| io_ErrShortWrite                                (* io.ErrShortWrite *)
| os_PathError (op path : string) (e : Errno)     (* *os.PathError *)
| os_ErrInvalid                                   (* os.ErrInvalid *)
| lib_error (msg : string).                       (* an error made by a library *)

(** [error]: [None] is the nil error. *)
Definition error : Type := option Err.

(** The five messages of the key generators. *)
Definition ErrUnsupportedKeySize : Err :=
  errors_New "this `alg` does not support arbitrary key length".
Definition ErrKeyTooShort : Err :=
  errors_New "too short key for RSA `alg`, 2048+ is required".
Definition ErrUnsupportedCurveSize : Err :=
  errors_New "unknown elliptic curve bit length, use one of 256, 384, 521".
Definition ErrUnknownAlgSig : Err := errors_New "unknown `alg` for `use` = `sig`".
Definition ErrUnknownAlgEnc : Err := errors_New "unknown `alg` for `use` = `enc`".

Global Instance Errno_eq_dec : EqDecision Errno.
Proof. solve_decision. Defined.
Global Instance Err_eq_dec : EqDecision Err.
Proof. solve_decision. Defined.

(** ** Algorithm identifiers

    [jose.SignatureAlgorithm] and [jose.KeyAlgorithm] are string types; the
    constants below are the ones go-jose declares (the JWA names of
    RFC 7518). *)
Module jose.
Definition ES256 := "ES256".
Definition ES384 := "ES384".
Definition ES512 := "ES512".
Definition EdDSA := "EdDSA".
Definition RS256 := "RS256".
Definition RS384 := "RS384".
Definition RS512 := "RS512".
Definition PS256 := "PS256".
Definition PS384 := "PS384".
Definition PS512 := "PS512".
Definition RSA1_5 := "RSA1_5".
Definition RSA_OAEP := "RSA-OAEP".
Definition RSA_OAEP_256 := "RSA-OAEP-256".
Definition ECDH_ES := "ECDH-ES".
Definition ECDH_ES_A128KW := "ECDH-ES+A128KW".
Definition ECDH_ES_A192KW := "ECDH-ES+A192KW".
Definition ECDH_ES_A256KW := "ECDH-ES+A256KW".
End jose.

(** ** Keys *)

Inductive Curve := P256 | P384 | P521.

Global Instance Curve_eq_dec : EqDecision Curve.
Proof. solve_decision. Defined.

Record ecdsa_PublicKey := { ec_Curve : Curve; ec_X : Z; ec_Y : Z }.
Record ecdsa_PrivateKey := { ec_PublicKey : ecdsa_PublicKey; ec_D : Z }.
Record rsa_PublicKey := { rsa_N : Z; rsa_E : Z }.
Record rsa_PrivateKey := { rsa_PublicKey_of : rsa_PublicKey; rsa_D : Z; rsa_Primes : list Z }.

(** The dynamic value behind [crypto.PublicKey] and [crypto.PrivateKey],
    both [interface{}].  [KNil] is the nil interface; an interface that
    holds a nil pointer or a nil slice is a different value. *)
Inductive Key :=
| KNil
| KEcdsaPublic (p : ptr ecdsa_PublicKey)
| KEcdsaPrivate (p : ptr ecdsa_PrivateKey)
| KRsaPublic (p : ptr rsa_PublicKey)
| KRsaPrivate (p : ptr rsa_PrivateKey)
| KEd25519Public (s : option (list byte))
| KEd25519Private (s : option (list byte)).

(** What a key-generation call asks of the cryptographic library. *)
Inductive Scheme :=
| OnCurve (c : Curve)        (* ecdsa.GenerateKey(c, rand.Reader) *)
| Ed25519                    (* ed25519.GenerateKey(rand.Reader) *)
| RsaModulus (bits : Z).     (* rsa.GenerateKey(rand.Reader, bits) *)

(** ** The world *)

Record File := { f_data : list byte; f_mode : Z }.

(** The calls a run makes to its collaborators.  Format strings are kept
    as the source writes them, escapes included. *)
Inductive Event :=
| EvRandRead (b : list byte)                      (* bytes the reader gave *)
| EvGenerateKey (s : Scheme)
| EvOpenFile (name : string) (flag perm : Z)
| EvWrite (name : string) (data : list byte)
| EvClose (name : string)
| EvPrintf (format : string) (args : list string) (* fmt.Printf *)
| EvPrintln (doc : list byte)                     (* fmt.Println(string(doc)) *)
| EvStderr (format : string) (args : list string).

Record World := {
  reader : list byte;            (* what crypto/rand.Reader still has to give *)
  files : gmap string File;      (* the file system, by path *)
  umask : Z;                     (* the process's file mode creation mask *)
  log : list Event               (* calls made so far, oldest first *)
}.

Definition emit (e : Event) (w : World) : World :=
  {| reader := reader w; files := files w; umask := umask w; log := log w ++ [e] |}.
Definition set_reader (r : list byte) (w : World) : World :=
  {| reader := r; files := files w; umask := umask w; log := log w |}.
Definition set_files (fs : gmap string File) (w : World) : World :=
  {| reader := reader w; files := fs; umask := umask w; log := log w |}.

(** ** The monad: a call returns, panics, or ends the process. *)

Inductive Outcome (A : Type) :=
| Done (a : A)
| Panic (msg : string)
| Exit (code : Z).
Arguments Done {A} a.
Arguments Panic {A} msg.
Arguments Exit {A} code.

Definition M (A : Type) : Type := World → Outcome A * World.

Definition ret {A} (a : A) : M A := λ w, (Done a, w).

Definition bind {A B} (m : M A) (k : A → M B) : M B :=
  λ w, match m w with
       | (Done a, w') => k a w'
       | (Panic msg, w') => (Panic msg, w')
       | (Exit c, w') => (Exit c, w')
       end.

Definition panic {A} (msg : string) : M A := λ w, (Panic msg, w).
Definition trace (e : Event) : M unit := λ w, (Done tt, emit e w).

Declare Scope go_scope.
Delimit Scope go_scope with go.
Notation "'let*' x ':=' m 'in' k" := (bind m (λ x, k))
  (at level 10, x pattern, m at level 100, k at level 200) : go_scope.
Notation "m ';;;' k" := (bind m (λ _, k))
  (at level 100, k at level 200, right associativity) : go_scope.
Local Open Scope go_scope.

(** ** The collaborators *)

Record JSONWebKey := { jwk_Key : Key; KeyID : string; Algorithm : string; Use : string }.

(** The command line, as kingpin parsed it. *)
Record Flags := {
  use : string; alg : string; bits : Z; kid : string;
  kidRand : bool; jwks : bool; format : bool
}.

Record Env := {
  (* crypto: each generator maps the entropy it is given to its results and
     to the entropy it leaves *)
  ecdsa_generate : Curve → list byte → (ptr ecdsa_PrivateKey * error) * list byte;
  rsa_generate : Z → list byte → (ptr rsa_PrivateKey * error) * list byte;
  ed25519_generate :
    list byte → (option (list byte) * option (list byte) * error) * list byte;
  (* operating system *)
  create_fault : string → option Errno;       (* why a new file cannot be made *)
  write_result : string → list byte → Z * error;  (* count and error of a write *)
  close_result : string → error;
  (* go-jose and its json package *)
  jwk_IsPublic : JSONWebKey → bool;
  jwk_Valid : JSONWebKey → bool;
  jwk_MarshalJSON : JSONWebKey → list byte * error;
  json_Marshal_set : list JSONWebKey → list byte * error;
  json_Indent : list byte → list byte * error
}.

(** The message of the run-time panic for a nil pointer dereference. *)
Definition nil_dereference : string :=
  "runtime error: invalid memory address or nil pointer dereference".

Section Program.
Context (E : Env).

(** *** crypto *)

Definition ecdsa_GenerateKey (c : Curve) : M (ptr ecdsa_PrivateKey * error) :=
  λ w, let '(r, rd) := ecdsa_generate E c (reader w) in
       (Done r, set_reader rd (emit (EvGenerateKey (OnCurve c)) w)).

Definition rsa_GenerateKey (bits : Z) : M (ptr rsa_PrivateKey * error) :=
  λ w, let '(r, rd) := rsa_generate E bits (reader w) in
       (Done r, set_reader rd (emit (EvGenerateKey (RsaModulus bits)) w)).

Definition ed25519_GenerateKey : M (option (list byte) * option (list byte) * error) :=
  λ w, let '(r, rd) := ed25519_generate E (reader w) in
       (Done r, set_reader rd (emit (EvGenerateKey Ed25519) w)).

(** [func (priv *PrivateKey) Public() crypto.PublicKey { return &priv.PublicKey }]
    of crypto/ecdsa: the address of a field of the receiver, so a nil
    receiver is a nil pointer dereference. *)
Definition ecdsa_Public (priv : ptr ecdsa_PrivateKey) : M Key :=
  match priv with
  | Some k => ret (KEcdsaPublic (Some (ec_PublicKey k)))
  | None => panic nil_dereference
  end.

(** The same method of crypto/rsa. *)
Definition rsa_Public (priv : ptr rsa_PrivateKey) : M Key :=
  match priv with
  | Some k => ret (KRsaPublic (Some (rsa_PublicKey_of k)))
  | None => panic nil_dereference
  end.

(** *** KeygenSig (main.go, lines 60-102) *)

Definition keylen : gmap string Z :=
  {[ jose.ES256 := 256; jose.ES384 := 384; jose.ES512 := 521; jose.EdDSA := 256 ]}.

(** A case list of a [switch] on strings. *)
Definition case_of (x : string) (l : list string) : bool := bool_decide (x ∈ l).

(** The first [switch]: [inl] is its early return, [inr] the value of
    [bits] it leaves. *)
Definition KeygenSig_check (alg : string) (bits : Z) : Err + Z :=
  if case_of alg [jose.ES256; jose.ES384; jose.ES512; jose.EdDSA] then
    if bool_decide (bits ≠ 0) && bool_decide (bits ≠ default 0 (keylen !! alg))
    then inl ErrUnsupportedKeySize
    else inr bits
  else if case_of alg [jose.RS256; jose.RS384; jose.RS512;
                       jose.PS256; jose.PS384; jose.PS512] then
    let bits := if bool_decide (bits = 0) then 2048 else bits in
    if bool_decide (bits < 2048) then inl ErrKeyTooShort else inr bits
  else inr bits.

Definition KeygenSig (alg : string) (bits : Z) : M (Key * Key * error) :=
  match KeygenSig_check alg bits with
  | inl e => ret (KNil, KNil, Some e)
  | inr bits =>
    if case_of alg [jose.ES256] then
      let* (key, err) := ecdsa_GenerateKey P256 in
      let* pub := ecdsa_Public key in
      ret (pub, KEcdsaPrivate key, err)
    else if case_of alg [jose.ES384] then
      let* (key, err) := ecdsa_GenerateKey P384 in
      let* pub := ecdsa_Public key in
      ret (pub, KEcdsaPrivate key, err)
    else if case_of alg [jose.ES512] then
      let* (key, err) := ecdsa_GenerateKey P521 in
      let* pub := ecdsa_Public key in
      ret (pub, KEcdsaPrivate key, err)
    else if case_of alg [jose.EdDSA] then
      let* (pub, key, err) := ed25519_GenerateKey in
      ret (KEd25519Public pub, KEd25519Private key, err)
    else if case_of alg [jose.RS256; jose.RS384; jose.RS512;
                         jose.PS256; jose.PS384; jose.PS512] then
      let* (key, err) := rsa_GenerateKey bits in
      let* pub := rsa_Public key in
      ret (pub, KRsaPrivate key, err)
    else ret (KNil, KNil, Some ErrUnknownAlgSig)
  end.

(** *** KeygenEnc (main.go, lines 105-133) *)

Definition KeygenEnc (alg : string) (bits : Z) : M (Key * Key * error) :=
  if case_of alg [jose.RSA1_5; jose.RSA_OAEP; jose.RSA_OAEP_256] then
    let bits := if bool_decide (bits = 0) then 2048 else bits in
    if bool_decide (bits < 2048) then ret (KNil, KNil, Some ErrKeyTooShort)
    else
      let* (key, err) := rsa_GenerateKey bits in
      let* pub := rsa_Public key in
      ret (pub, KRsaPrivate key, err)
  else if case_of alg [jose.ECDH_ES; jose.ECDH_ES_A128KW;
                       jose.ECDH_ES_A192KW; jose.ECDH_ES_A256KW] then
    match
      (if bool_decide (bits = 0 ∨ bits = 256) then Some P256
       else if bool_decide (bits = 384) then Some P384
       else if bool_decide (bits = 521) then Some P521
       else None)
    with
    | None => ret (KNil, KNil, Some ErrUnsupportedCurveSize)
    | Some crv =>
      let* (key, err) := ecdsa_GenerateKey crv in
      let* pub := ecdsa_Public key in
      ret (pub, KEcdsaPrivate key, err)
    end
  else ret (KNil, KNil, Some ErrUnknownAlgEnc).

(** *** os

    The file system is a map from paths to files.  [os.OpenFile] follows
    open(2): with [O_CREATE] and [O_EXCL] an existing path is refused with
    [EEXIST]; a new file gets the requested permission bits less the
    umask.  A handle is the path it was opened on; the program writes to a
    handle once, right after creating the file, so a write appends to the
    (empty) contents.  How many bytes a write takes, and whether write and
    close report an error, is the environment's choice. *)

Definition O_WRONLY : Z := 0x1.
Definition O_CREATE : Z := 0x40.
Definition O_EXCL : Z := 0x80.
Definition O_TRUNC : Z := 0x200.

(** A permission written in octal, [0abc] in Go. *)
Definition octal (a b c : Z) : Z := a * 64 + b * 8 + c.

Definition has_flag (flag bit : Z) : bool := negb (Z.land flag bit =? 0).

Definition os_File : Type := string.

Definition os_OpenFile (name : string) (flag perm : Z) : M (ptr os_File * error) :=
  λ w,
    let w := emit (EvOpenFile name flag perm) w in
    match files w !! name with
    | Some f =>
        if has_flag flag O_CREATE && has_flag flag O_EXCL then
          (Done (None, Some (os_PathError "open" name EEXIST)), w)
        else if has_flag flag O_TRUNC then
          (Done (Some name, None),
           set_files (<[name := {| f_data := []; f_mode := f_mode f |}]> (files w)) w)
        else (Done (Some name, None), w)
    | None =>
        if has_flag flag O_CREATE then
          match create_fault E name with
          | Some e => (Done (None, Some (os_PathError "open" name e)), w)
          | None =>
              (Done (Some name, None),
               set_files (<[name := {| f_data := [];
                                       f_mode := Z.ldiff (Z.land perm (octal 7 7 7))
                                                         (umask w) |}]> (files w)) w)
          end
        else (Done (None, Some (os_PathError "open" name ENOENT)), w)
    end.

(** The [Write] method of [os.File]; on a nil handle it returns
    [os.ErrInvalid]. *)
Definition file_Write (f : ptr os_File) (data : list byte) : M (Z * error) :=
  match f with
  | None => ret (0, Some os_ErrInvalid)
  | Some name =>
    λ w,
      let w := emit (EvWrite name data) w in
      let '(n, err) := write_result E name data in
      (Done (n, err),
       set_files
         (alter (λ fl, {| f_data := f_data fl ++ take (Z.to_nat n) data;
                          f_mode := f_mode fl |}) name (files w)) w)
  end.

(** The [Close] method of [os.File]. *)
Definition file_Close (f : ptr os_File) : M error :=
  match f with
  | None => ret (Some os_ErrInvalid)
  | Some name => λ w, (Done (close_result E name), emit (EvClose name) w)
  end.

(** *** writeNewFile (main.go, lines 264-277) *)

Definition writeNewFile (filename : string) (data : list byte) (perm : Z) : M error :=
  let* (f, err) := os_OpenFile filename (Z.lor O_WRONLY (Z.lor O_CREATE O_EXCL)) perm in
  match err with
  | Some _ => ret err
  | None =>
    let* (n, err) := file_Write f data in
    let err := if bool_decide (err = None) && bool_decide (n < Z.of_nat (length data))
               then Some io_ErrShortWrite else err in
    let* err1 := file_Close f in
    let err := if bool_decide (err = None) then err1 else err in
    ret err
  end.

(** *** crypto/rand, encoding/base32, fmt and kingpin *)

(** [rand.Read(b)]: fills [b] from the reader, or reports an error when the
    reader cannot give [len(b)] bytes. *)
Definition rand_Read (b : list byte) : M (list byte * error) :=
  λ w,
    let n := length b in
    if bool_decide (n ≤ length (reader w))%nat then
      let b' := take n (reader w) in
      (Done (b', None), set_reader (drop n (reader w)) (emit (EvRandRead b') w))
    else
      let b' := reader w ++ drop (length (reader w)) b in
      (Done (b', Some (lib_error "unexpected EOF")),
       set_reader [] (emit (EvRandRead (reader w)) w)).

(** Modelled from the spec: [base32.StdEncoding] belongs to Go's
    encoding/base32, which is not among the sources.  The specification
    calls the generated key id fixed-length and base-32-encoded; the four
    definitions below are that encoding as RFC 4648, section 6, defines it
    and as the library computes it: this alphabet, groups of five bits
    taken from quanta of five bytes, ["="] padding of a short last
    quantum. *)
Definition encodeStd : string := "ABCDEFGHIJKLMNOPQRSTUVWXYZ234567".

(** Modelled from the spec: the character of a 5-bit group. *)
Definition encode_char (b : Z) : ascii :=
  match String.get (Z.to_nat (Z.land b 31)) encodeStd with
  | Some c => c
  | None => "="%char
  end.

(** Modelled from the spec: the eight 5-bit groups of a 5-byte quantum;
    absent bytes count as 0. *)
Definition quantum (s0 s1 s2 s3 s4 : byte) : list Z :=
  [ Z.shiftr s0 3;
    Z.lor (Z.land (Z.shiftl s0 2) 0x1F) (Z.land (Z.shiftr s1 6) 0x1F);
    Z.land (Z.shiftr s1 1) 0x1F;
    Z.lor (Z.land (Z.shiftl s1 4) 0x1F) (Z.land (Z.shiftr s2 4) 0x1F);
    Z.lor (Z.land (Z.shiftl s2 1) 0x1F) (Z.shiftr s3 7);
    Z.land (Z.shiftr s3 2) 0x1F;
    Z.lor (Z.land (Z.shiftl s3 3) 0x1F) (Z.shiftr s4 5);
    Z.land s4 0x1F ].

(** Modelled from the spec: the characters of a quantum of which the
    first [present] groups carry input. *)
Definition encode_quantum (present : nat) (q : list Z) : string :=
  string_of_list_ascii
    (map encode_char (take present q) ++ replicate (8 - present)%nat "="%char).

(** Modelled from the spec: [base32.StdEncoding.EncodeToString]. *)
Fixpoint base32_EncodeToString (src : list byte) : string :=
  match src with
  | [] => ""
  | [s0] => encode_quantum 2 (quantum s0 0 0 0 0)
  | [s0; s1] => encode_quantum 4 (quantum s0 s1 0 0 0)
  | [s0; s1; s2] => encode_quantum 5 (quantum s0 s1 s2 0 0)
  | [s0; s1; s2; s3] => encode_quantum 7 (quantum s0 s1 s2 s3 0)
  | s0 :: s1 :: s2 :: s3 :: s4 :: rest =>
      encode_quantum 8 (quantum s0 s1 s2 s3 s4) +:+ base32_EncodeToString rest
  end.

(** [fmt.Sprintf] for formats whose only verb is [%s]. *)
Fixpoint Sprintf (format : string) (args : list string) : string :=
  match format with
  | "" => ""
  | String "%" (String "s" rest) =>
      match args with
      | a :: args' => a +:+ Sprintf rest args'
      | [] => "%!s(MISSING)" +:+ Sprintf rest []
      end
  | String c rest => String c (Sprintf rest args)
  end.

Definition Printf (format : string) (args : list string) : M unit :=
  trace (EvPrintf format args).
Definition Println (doc : list byte) : M unit := trace (EvPrintln doc).

(** kingpin's [FatalIfError], [FatalUsage] and [Fatalf]: a message on
    standard error, then exit status 1. *)
Definition Fatalf {A} (format : string) (args : list string) : M A :=
  λ w, (Exit 1, emit (EvStderr format args) w).
Definition FatalUsage {A} (format : string) : M A := Fatalf format [].
Definition FatalIfError (err : error) (format : string) (args : list string) : M unit :=
  match err with
  | None => ret tt
  | Some _ => Fatalf format args
  end.

(** *** formatJSON (main.go, lines 150-157) *)

Definition formatJSON (b : list byte) : list byte :=
  let '(buf, err) := json_Indent E b in
  match err with
  | Some _ => b
  | None => buf
  end.

(** *** main (main.go, lines 159-260) *)

Definition main (fl : Flags) : M unit :=
  let* kid :=
    (if kidRand fl then
       if bool_decide (kid fl = "") then
         let* (b, err) := rand_Read (replicate 5 0) in
         FatalIfError err "can't Read() crypto/rand" [] ;;;
         ret (base32_EncodeToString b)
       else FatalUsage "can't combine --kid and --kid-rand"
     else ret (kid fl)) in
  let* (pubKey, privKey, err) :=
    (if bool_decide (use fl = "sig") then KeygenSig (alg fl) (bits fl)
     else if bool_decide (use fl = "enc") then KeygenEnc (alg fl) (bits fl)
     else ret (KNil, KNil, None)) in
  FatalIfError err "unable to generate key" [] ;;;
  let priv := {| jwk_Key := privKey; KeyID := kid; Algorithm := alg fl; Use := use fl |} in
  let pub := {| jwk_Key := pubKey; KeyID := kid; Algorithm := alg fl; Use := use fl |} in
  (if jwk_IsPublic E priv || negb (jwk_IsPublic E pub)
      || negb (jwk_Valid E priv) || negb (jwk_Valid E pub)
   then Fatalf "invalid keys were generated" []
   else ret tt) ;;;
  let '(privJS, err) := jwk_MarshalJSON E priv in
  FatalIfError err "can't Marshal private key to JSON" [] ;;;
  let '(pubJS, err) := jwk_MarshalJSON E pub in
  FatalIfError err "can't Marshal public key to JSON" [] ;;;
  let pubJS := if format fl then formatJSON pubJS else pubJS in
  let privJS := if format fl then formatJSON privJS else privJS in
  let* (pubJSJWKS, privJSJWKS) :=
    (if jwks fl then
       let '(privJSJWKS, err) := json_Marshal_set E [priv] in
       FatalIfError err "can't Marshal private key with JWKS to JSON" [] ;;;
       let '(pubJSJWKS, err) := json_Marshal_set E [pub] in
       FatalIfError err "can't Marshal public key with JWKS to JSON" [] ;;;
       ret (if format fl then formatJSON pubJSJWKS else pubJSJWKS,
            if format fl then formatJSON privJSJWKS else privJSJWKS)
     else ret ([], [])) in
  if bool_decide (kid = "") then
    Printf "==> jwk_%s-pub.json <==\n" [alg fl] ;;;
    Println pubJS ;;;
    Printf "==> jwk_%s.json <==\n" [alg fl] ;;;
    Println privJS ;;;
    if jwks fl then
      Printf "==> jwks_%s-pub.json <==\n" [alg fl] ;;;
      Println pubJSJWKS ;;;
      Printf "==> jwks_%s.json <==\n" [alg fl] ;;;
      Println privJSJWKS
    else ret tt
  else
    let fname := Sprintf "jwk_%s_%s_%s" [use fl; alg fl; kid] in
    let* err := writeNewFile (fname +:+ "-pub.json") pubJS (octal 4 4 4) in
    FatalIfError err "can't write public key with JWK to file %s-pub.json" [fname] ;;;
    Printf "Written public key with JWK to %s-pub.json\n" [fname] ;;;
    let* err := writeNewFile (fname +:+ ".json") privJS (octal 4 0 0) in
    FatalIfError err "cant' write private key with JWK to file %s.json" [fname] ;;;
    Printf "Written private key with JWK to %s.json\n" [fname] ;;;
    if jwks fl then
      let fname := Sprintf "jwks_%s_%s_%s" [use fl; alg fl; kid] in
      let* err := writeNewFile (fname +:+ "-pub.json") pubJSJWKS (octal 4 4 4) in
      FatalIfError err "can't write public key with JWKS to file %s-pub.json" [fname] ;;;
      Printf "Written public key with JWKS to %s-pub.json\n" [fname] ;;;
      let* err := writeNewFile (fname +:+ ".json") privJSJWKS (octal 4 0 0) in
      FatalIfError err "cant' write private key with JWKS to file %s.json" [fname] ;;;
      Printf "Written private key with JWKS to %s.json\n" [fname]
    else ret tt.

End Program.

(** ** What the claims about the key generators talk about *)

(** The ten signature and the seven encryption identifiers, as the two
    [case] lists of each function give them. *)
Definition curve_sig_algs : list string :=
  [jose.ES256; jose.ES384; jose.ES512; jose.EdDSA].
Definition rsa_sig_algs : list string :=
  [jose.RS256; jose.RS384; jose.RS512; jose.PS256; jose.PS384; jose.PS512].
Definition sig_algs : list string := curve_sig_algs ++ rsa_sig_algs.
Definition rsa_enc_algs : list string :=
  [jose.RSA1_5; jose.RSA_OAEP; jose.RSA_OAEP_256].
Definition ecdh_enc_algs : list string :=
  [jose.ECDH_ES; jose.ECDH_ES_A128KW; jose.ECDH_ES_A192KW; jose.ECDH_ES_A256KW].
Definition enc_algs : list string := rsa_enc_algs ++ ecdh_enc_algs.

(** The table of fixed sizes and schemes, as the specification words it. *)
Definition fixed_size (alg : string) : option (Z * Scheme) :=
  if bool_decide (alg = jose.ES256) then Some (256, OnCurve P256)
  else if bool_decide (alg = jose.ES384) then Some (384, OnCurve P384)
  else if bool_decide (alg = jose.ES512) then Some (521, OnCurve P521)
  else if bool_decide (alg = jose.EdDSA) then Some (256, Ed25519)
  else None.

(** [m] turns the request down with [e]: it returns the nil pair with [e]
    and leaves the world as it found it (no library call, no entropy
    used). *)
Definition rejects (e : Err) (m : M (Key * Key * error)) : Prop :=
  ∀ w, m w = (Done (KNil, KNil, Some e), w).

(** [m] generates on scheme [s]: it makes one library call, to the generator
    of [s] on the entropy at hand, touches nothing else, and whenever that
    generator delivers a private key, returns it with its public half and
    the generator's error value. *)
Definition generates_on (E : Env) (s : Scheme) (m : M (Key * Key * error)) : Prop :=
  ∀ w, ∃ out w',
    m w = (out, w') ∧
    log w' = log w ++ [EvGenerateKey s] ∧
    files w' = files w ∧
    match s with
    | OnCurve c =>
        reader w' = (ecdsa_generate E c (reader w)).2 ∧
        ∀ k err, (ecdsa_generate E c (reader w)).1 = (Some k, err) →
          out = Done (KEcdsaPublic (Some (ec_PublicKey k)), KEcdsaPrivate (Some k), err)
    | Ed25519 =>
        reader w' = (ed25519_generate E (reader w)).2 ∧
        ∀ pub key err, (ed25519_generate E (reader w)).1 = (pub, key, err) →
          out = Done (KEd25519Public pub, KEd25519Private key, err)
    | RsaModulus bits =>
        reader w' = (rsa_generate E bits (reader w)).2 ∧
        ∀ k err, (rsa_generate E bits (reader w)).1 = (Some k, err) →
          out = Done (KRsaPublic (Some (rsa_PublicKey_of k)), KRsaPrivate (Some k), err)
    end.

(** The size policy of the RSA families. *)
Definition rsa_policy (E : Env) (bits : Z) (m : M (Key * Key * error)) : Prop :=
  (bits = 0 → generates_on E (RsaModulus 2048) m) ∧
  (bits ≠ 0 → bits < 2048 → rejects ErrKeyTooShort m) ∧
  (2048 ≤ bits → generates_on E (RsaModulus bits) m).

(** ** What the claims about the file writer and the namer talk about *)

(** The flags [writeNewFile] opens with. *)
Definition new_file_flags : Z := Z.lor O_WRONLY (Z.lor O_CREATE O_EXCL).

(** [os.IsExist]: the error says the file already exists. *)
Definition os_IsExist (err : error) : bool :=
  match err with
  | Some (os_PathError _ _ EEXIST) => true
  | _ => false
  end.

(** The error of a write of [len] bytes that was opened successfully, from
    the write's error [werr], its count [n] and the close's error [cerr],
    in the order the specification gives. *)
Definition write_outcome (werr : error) (n len : Z) (cerr : error) : error :=
  match werr with
  | Some e => Some e
  | None => if bool_decide (n < len) then Some io_ErrShortWrite else cerr
  end.

(** The two artifact kinds and the name of an artifact, as the
    specification words it: kind tag, use, algorithm and key id joined by
    ["_"], then ["-pub.json"] or [".json"]. *)
Inductive Kind := SingleKey | KeySet.

Global Instance Kind_eq_dec : EqDecision Kind.
Proof. solve_decision. Defined.

Definition kind_tag (k : Kind) : string :=
  match k with SingleKey => "jwk" | KeySet => "jwks" end.

Definition artifact_name (k : Kind) (public : bool) (use alg kid : string) : string :=
  kind_tag k +:+ "_" +:+ use +:+ "_" +:+ alg +:+ "_" +:+ kid
    +:+ (if public then "-pub.json" else ".json").

Abbreviation chars := list_ascii_of_string.

(** The part of a name before the key id. *)
Definition stem (k : Kind) (use alg : string) : string :=
  kind_tag k +:+ "_" +:+ use +:+ "_" +:+ alg +:+ "_".

Definition suffix_of (public : bool) : string :=
  if public then "-pub.json" else ".json".

Definition artifact_perm (public : bool) : Z :=
  if public then octal 4 4 4 else octal 4 0 0.

(** The enumerated values of [--use] and of [--alg] (main.go, lines 43-51). *)
Definition uses : list string := ["enc"; "sig"].
Definition algs : list string := sig_algs ++ enc_algs.

(** The files a run has opened, with the permission asked for each, and
    the documents it has printed. *)
Definition opened (l : list Event) : list (string * Z) :=
  omap (λ e, match e with EvOpenFile name _ perm => Some (name, perm) | _ => None end) l.

Definition printed (l : list Event) : list (list byte) :=
  omap (λ e, match e with EvPrintln doc => Some doc | _ => None end) l.

Definition written (l : list Event) : list (string * list byte) :=
  omap (λ e, match e with EvWrite name data => Some (name, data) | _ => None end) l.

Definition rand_reads (l : list Event) : list (list byte) :=
  omap (λ e, match e with EvRandRead b => Some b | _ => None end) l.

(** The artifacts of a run that has a key id: the single key's public and
    private file, then the key set's when [--jwks] is given. *)
Definition expected_files (fl : Flags) (kid : string) : list (string * Z) :=
  [ (artifact_name SingleKey true (use fl) (alg fl) kid, artifact_perm true);
    (artifact_name SingleKey false (use fl) (alg fl) kid, artifact_perm false) ]
  ++ (if jwks fl then
        [ (artifact_name KeySet true (use fl) (alg fl) kid, artifact_perm true);
          (artifact_name KeySet false (use fl) (alg fl) kid, artifact_perm false) ]
      else []).

(** A document as [--format] leaves it. *)
Definition formatted (E : Env) (fl : Flags) (b : list byte) : list byte :=
  if format fl then formatJSON E b else b.

(** The JSON Web Key [main] makes of a key. *)
Definition web_key (fl : Flags) (kid : string) (k : Key) : JSONWebKey :=
  {| jwk_Key := k; KeyID := kid; Algorithm := alg fl; Use := use fl |}.

(** The documents that go into the artifacts, in the order of
    [expected_files]. *)
Definition expected_docs (E : Env) (fl : Flags) (kid : string) (pub priv : Key)
    : list (string * list byte) :=
  [ (artifact_name SingleKey true (use fl) (alg fl) kid,
     formatted E fl (jwk_MarshalJSON E (web_key fl kid pub)).1);
    (artifact_name SingleKey false (use fl) (alg fl) kid,
     formatted E fl (jwk_MarshalJSON E (web_key fl kid priv)).1) ]
  ++ (if jwks fl then
        [ (artifact_name KeySet true (use fl) (alg fl) kid,
           formatted E fl (json_Marshal_set E [web_key fl kid pub]).1);
          (artifact_name KeySet false (use fl) (alg fl) kid,
           formatted E fl (json_Marshal_set E [web_key fl kid priv]).1) ]
      else []).

(** The documents a run without a key id prints. *)
Definition console_docs (E : Env) (fl : Flags) (kid : string) (pub priv : Key)
    : list (list byte) :=
  [ formatted E fl (jwk_MarshalJSON E (web_key fl kid pub)).1;
    formatted E fl (jwk_MarshalJSON E (web_key fl kid priv)).1 ]
  ++ (if jwks fl then
        [ formatted E fl (json_Marshal_set E [web_key fl kid pub]).1;
          formatted E fl (json_Marshal_set E [web_key fl kid priv]).1 ]
      else []).

(** Where the key id of a run comes from: with [--kid-rand], it encodes
    five bytes, the ones the run read from the random source if it went
    on; otherwise it is the [--kid] flag. *)
Definition kid_of_run (fl : Flags) (o : Outcome unit) (l : list Event) (id : string)
    : Prop :=
  if kidRand fl then
    kid fl = "" ∧
    ∃ b, length b = 5%nat ∧ id = base32_EncodeToString b ∧
         (o = Done tt → rand_reads l = [b])
  else id = kid fl ∧ rand_reads l = [].

(** What a run of [main] leaves in the log.  Either it stopped before the
    output stage, having opened and printed nothing; or it reached the
    output stage with a key id and a pair of keys that passed the checks,
    and then printed the documents (no key id) or wrote the artifacts in
    order (key id). *)
Definition main_post (E : Env) (fl : Flags) (o : Outcome unit) (l : list Event) : Prop :=
  (o ≠ Done tt ∧ opened l = [] ∧ written l = [] ∧ printed l = []) ∨
  ∃ kid pub priv,
    kid_of_run fl o l kid ∧
    jwk_IsPublic E (web_key fl kid pub) = true ∧
    jwk_IsPublic E (web_key fl kid priv) = false ∧
    if bool_decide (kid = "") then
      o = Done tt ∧ opened l = [] ∧ written l = [] ∧
      printed l = console_docs E fl kid pub priv
    else
      printed l = [] ∧
      opened l `prefix_of` expected_files fl kid ∧
      (o = Done tt →
       opened l = expected_files fl kid ∧
       written l = expected_docs E fl kid pub priv).

(** What the key-id stage of [main] leaves. *)
Definition kid_stage_post (fl : Flags) (o : Outcome string) (l : list Event) : Prop :=
  opened l = [] ∧ written l = [] ∧ printed l = [] ∧
  match o with
  | Done id =>
      if kidRand fl then
        kid fl = "" ∧ ∃ b, length b = 5%nat ∧ id = base32_EncodeToString b ∧ rand_reads l = [b]
      else id = kid fl ∧ rand_reads l = []
  | _ => True
  end.

(** What the output stage of [main] leaves, from the key id and the four
    documents. *)
Definition output_post (fl : Flags) (id : string)
    (pubJS privJS pubJSJWKS privJSJWKS : list byte)
    (o : Outcome unit) (l : list Event) : Prop :=
  rand_reads l = [] ∧
  if bool_decide (id = "") then
    o = Done tt ∧ opened l = [] ∧ written l = [] ∧
    printed l = [pubJS; privJS] ++ (if jwks fl then [pubJSJWKS; privJSJWKS] else [])
  else
    printed l = [] ∧
    opened l `prefix_of` expected_files fl id ∧
    (o = Done tt →
     opened l = expected_files fl id ∧
     written l =
       [ (artifact_name SingleKey true (use fl) (alg fl) id, pubJS);
         (artifact_name SingleKey false (use fl) (alg fl) id, privJS) ]
       ++ (if jwks fl then
             [ (artifact_name KeySet true (use fl) (alg fl) id, pubJSJWKS);
               (artifact_name KeySet false (use fl) (alg fl) id, privJSJWKS) ]
           else [])).

(** The naming is injective, as the specification asks: tuples with the
    same name are the same tuple. *)
Definition naming_injective : Prop :=
  ∀ k1 p1 u1 a1 i1 k2 p2 u2 a2 i2,
    u1 ∈ uses → u2 ∈ uses → a1 ∈ algs → a2 ∈ algs →
    artifact_name k1 p1 u1 a1 i1 = artifact_name k2 p2 u2 a2 i2 →
    (k1, p1, u1, a1, i1) = (k2, p2, u2, a2, i2).

(** A stretch of log without files, documents or random reads. *)
Definition crypto_only (l : list Event) : Prop :=
  rand_reads l = [] ∧ opened l = [] ∧ written l = [] ∧ printed l = [].

(** [m] adds [l] to the log and ends in [o], for some [l] and [o] that
    satisfy [P], whatever world it starts in. *)
Definition emits {A} (m : M A) (P : Outcome A → list Event → Prop) : Prop :=
  ∀ w, ∃ l, log (m w).2 = log w ++ l ∧ P (m w).1 l.

(** ** A small concrete environment, to run the program on

    Every generator takes one byte of entropy for its secret and fails,
    with a nil key, when the reader is empty. *)
Definition demo_env : Env := {|
  ecdsa_generate c rd :=
    match rd with
    | d :: rd' =>
        (Some {| ec_PublicKey := {| ec_Curve := c; ec_X := d + 1; ec_Y := d + 2 |};
                 ec_D := d |}, None, rd')
    | [] => (None, Some (lib_error "EOF"), [])
    end;
  rsa_generate bits rd :=
    match rd with
    | d :: rd' =>
        (Some {| rsa_PublicKey_of := {| rsa_N := 2 ^ bits - 1; rsa_E := 65537 |};
                 rsa_D := d; rsa_Primes := [] |}, None, rd')
    | [] => (None, Some (lib_error "EOF"), [])
    end;
  ed25519_generate rd :=
    match rd with
    | d :: rd' => (Some [d + 1], Some [d; d + 1], None, rd')
    | [] => (None, None, Some (lib_error "EOF"), [])
    end;
  create_fault _ := None;
  write_result _ data := (Z.of_nat (length data), None);
  close_result _ := None;
  jwk_IsPublic k :=
    match jwk_Key k with
    | KEcdsaPublic _ | KRsaPublic _ | KEd25519Public _ => true
    | _ => false
    end;
  jwk_Valid k := match jwk_Key k with KNil => false | _ => true end;
  jwk_MarshalJSON k := ([Z.of_nat (String.length (KeyID k))], None);
  json_Marshal_set ks := ([Z.of_nat (length ks)], None);
  json_Indent b := (32 :: b, None)
|}.

Definition demo_world (entropy : list byte) : World :=
  {| reader := entropy; files := ∅; umask := 18; log := [] |}.

Definition demo_flags : Flags :=
  {| use := "sig"; alg := jose.ES256; bits := 0; kid := "";
     kidRand := true; jwks := true; format := false |}.

(** ** pemBlockForKey (main.go, lines 135-148)

    The two x509 encoders are not part of the repository; they are kept
    abstract, and may panic. *)

Record pem_Block := { pem_Type : string; pem_Bytes : list byte }.

Record X509 := {
  x509_MarshalPKCS1PrivateKey : ptr rsa_PrivateKey → Outcome (list byte);
  x509_MarshalECPrivateKey : ptr ecdsa_PrivateKey → Outcome (list byte * error)
}.

(** A library call that touches nothing of the world. *)
Definition pure_call {A} (o : Outcome A) : M A := λ w, (o, w).

Definition ErrUnknownKeyType : Err := errors_New "Uknown key type".

(** The type switch takes the [*rsa.PrivateKey] and [*ecdsa.PrivateKey]
    cases on the dynamic type, a nil pointer of that type included. *)
Definition pemBlockForKey (X : X509) (priv : Key) : M (ptr pem_Block * error) :=
  match priv with
  | KRsaPrivate k =>
      let* b := pure_call (x509_MarshalPKCS1PrivateKey X k) in
      ret (Some {| pem_Type := "RSA PRIVATE KEY"; pem_Bytes := b |}, None)
  | KEcdsaPrivate k =>
      let* (b, err) := pure_call (x509_MarshalECPrivateKey X k) in
      match err with
      | Some _ => ret (None, err)
      | None => ret (Some {| pem_Type := "EC PRIVATE KEY"; pem_Bytes := b |}, None)
      end
  | _ => ret (None, Some ErrUnknownKeyType)
  end.

(** Encoders for the demo environment. *)
Definition demo_x509 : X509 := {|
  x509_MarshalPKCS1PrivateKey k :=
    match k with
    | Some key => Done [rsa_D key]
    | None => Panic nil_dereference
    end;
  x509_MarshalECPrivateKey k :=
    match k with
    | Some key => Done ([ec_D key], None)
    | None => Panic nil_dereference
    end
|}.

(** ** What the further properties talk about *)

(** The public key that belongs to a private key of the two families whose
    public half the generators take from the private key. *)
Definition public_of (priv : Key) : option Key :=
  match priv with
  | KEcdsaPrivate (Some k) => Some (KEcdsaPublic (Some (ec_PublicKey k)))
  | KRsaPrivate (Some k) => Some (KRsaPublic (Some (rsa_PublicKey_of k)))
  | _ => None
  end.

(** The generator calls in a stretch of log. *)
Definition generated (l : list Event) : list Scheme :=
  omap (λ e, match e with EvGenerateKey s => Some s | _ => None end) l.

(** A scheme the size policy allows: any curve, Ed25519, or an RSA modulus
    of 2048 bits or more. *)
Definition allowed_scheme (s : Scheme) : Prop :=
  match s with
  | RsaModulus bits => 2048 ≤ bits
  | _ => True
  end.

(** [m] leaves every file it finds as it is (it may add files) and does
    not touch the umask. *)
Definition keeps_files {A} (m : M A) : Prop :=
  ∀ w, files w ⊆ files (m w).2 ∧ umask (m w).2 = umask w.

(** The file [writeNewFile] leaves behind when all went well. *)
Definition new_file (data : list byte) (perm mask : Z) : File :=
  {| f_data := data; f_mode := Z.ldiff (Z.land perm (octal 7 7 7)) mask |}.

(** What a key-generation call leaves of the world, and what kind of pair
    comes back of it. *)
Definition generated_pair (s : Scheme) (pub priv : Key) (w w' : World) : Prop :=
  log w' = log w ++ [EvGenerateKey s] ∧ files w' = files w ∧ umask w' = umask w ∧
  match s with
  | OnCurve _ =>
      ∃ k, priv = KEcdsaPrivate (Some k) ∧ pub = KEcdsaPublic (Some (ec_PublicKey k))
  | RsaModulus _ =>
      ∃ k, priv = KRsaPrivate (Some k) ∧ pub = KRsaPublic (Some (rsa_PublicKey_of k))
  | Ed25519 => ∃ p s, pub = KEd25519Public p ∧ priv = KEd25519Private s
  end.

(** The key-generation call of [main] (main.go, lines 177-182). *)
Definition main_keygen (E : Env) (fl : Flags) : M (Key * Key * error) :=
  if bool_decide (use fl = "sig") then KeygenSig E (alg fl) (bits fl)
  else if bool_decide (use fl = "enc") then KeygenEnc E (alg fl) (bits fl)
  else ret (KNil, KNil, None).

(** Flags and a world for the demo environment: an explicit key id, and a
    file that is already there. *)
Definition demo_flags_kid : Flags :=
  {| use := "enc"; alg := jose.ECDH_ES; bits := 384; kid := "k1";
     kidRand := false; jwks := false; format := true |}.

Definition demo_file : File := {| f_data := [1; 2]; f_mode := 256 |}.

Definition demo_world_with_file (entropy : list byte) : World :=
  set_files {[ "jwk_enc_ECDH-ES_k1.json" := demo_file ]} (demo_world entropy).

Definition demo_rsa_key : rsa_PrivateKey :=
  {| rsa_PublicKey_of := {| rsa_N := 3233; rsa_E := 17 |}; rsa_D := 413;
     rsa_Primes := [61; 53] |}.

(** ** Evaluation lemmas and tactics *)

(** Evaluate the tests of the [switch]es once the identifier is known. *)
Ltac eval_closed t :=
  let v := eval vm_compute in t in
  replace t with v by (vm_compute; reflexivity).

Ltac eval_cases :=
  repeat match goal with
  | |- context [case_of ?a ?l] => eval_closed (case_of a l)
  | |- context [keylen !! ?a] => eval_closed (keylen !! a)
  end.

(** [x] is in none of the cases of a list it is absent from. *)
Ltac sublist_absent H :=
  let Hin := fresh in
  intros Hin; apply H; rewrite !elem_of_cons in Hin; rewrite !elem_of_cons;
  rewrite elem_of_nil in Hin; tauto.

Lemma case_of_false (x : string) (l : list string) : x ∉ l → case_of x l = false.
Proof. intros H. unfold case_of. by apply bool_decide_eq_false. Qed.

Lemma case_of_true (x : string) (l : list string) : x ∈ l → case_of x l = true.
Proof. intros H. unfold case_of. by apply bool_decide_eq_true. Qed.

Section KeygenFacts.
Context (E : Env).

(** The three return sequences of the generators meet [generates_on]. *)
Lemma ecdsa_return_generates (c : Curve) :
  generates_on E (OnCurve c)
    (let* (key, err) := ecdsa_GenerateKey E c in
     let* pub := ecdsa_Public key in
     ret (pub, KEcdsaPrivate key, err)).
Proof.
  intros w. unfold bind, ecdsa_GenerateKey.
  destruct (ecdsa_generate E c (reader w)) as [[key err] rd] eqn:G.
  destruct key as [k|]; simpl; eexists _, _; (split; [reflexivity|]);
    simpl; repeat split; try congruence.
Qed.

Lemma rsa_return_generates (bits : Z) :
  generates_on E (RsaModulus bits)
    (let* (key, err) := rsa_GenerateKey E bits in
     let* pub := rsa_Public key in
     ret (pub, KRsaPrivate key, err)).
Proof.
  intros w. unfold bind, rsa_GenerateKey.
  destruct (rsa_generate E bits (reader w)) as [[key err] rd] eqn:G.
  destruct key as [k|]; simpl; eexists _, _; (split; [reflexivity|]);
    simpl; repeat split; try congruence.
Qed.

Lemma ed25519_return_generates :
  generates_on E Ed25519
    (let* (pub, key, err) := ed25519_GenerateKey E in
     ret (KEd25519Public pub, KEd25519Private key, err)).
Proof.
  intros w. unfold bind, ed25519_GenerateKey.
  destruct (ed25519_generate E (reader w)) as [[[pub key] err] rd] eqn:G.
  simpl. eexists _, _. split; [reflexivity|].
  simpl. repeat split; try congruence.
Qed.

End KeygenFacts.

(** ** The key generators: size policy *)

Section KeygenPolicy.
Context (E : Env).

Lemma KeygenSig_unfold_rsa (alg : string) (bits : Z) :
  alg ∈ rsa_sig_algs →
  KeygenSig E alg bits =
    let bits := if bool_decide (bits = 0) then 2048 else bits in
    if bool_decide (bits < 2048) then ret (KNil, KNil, Some ErrKeyTooShort)
    else
      (let* (key, err) := rsa_GenerateKey E bits in
       let* pub := rsa_Public key in
       ret (pub, KRsaPrivate key, err)).
Proof.
  intros H. unfold rsa_sig_algs in H.
  repeat (apply elem_of_cons in H as [->|H]); try (by apply elem_of_nil in H);
    unfold KeygenSig, KeygenSig_check; eval_cases; simpl;
    repeat (case_bool_decide; simpl); reflexivity.
Qed.

Lemma fixed_size_inv (alg : string) (n : Z) (s : Scheme) :
  fixed_size alg = Some (n, s) →
  (alg = jose.ES256 ∧ n = 256 ∧ s = OnCurve P256) ∨
  (alg = jose.ES384 ∧ n = 384 ∧ s = OnCurve P384) ∨
  (alg = jose.ES512 ∧ n = 521 ∧ s = OnCurve P521) ∨
  (alg = jose.EdDSA ∧ n = 256 ∧ s = Ed25519).
Proof.
  unfold fixed_size. intros H.
  repeat case_bool_decide; simplify_eq; tauto.
Qed.

(** C1: for ES256, ES384, ES512 and EdDSA, a requested size of 0 or of the
    table value (256, 384, 521, 256) passes validation and the key is
    generated on the fixed scheme (P-256, P-384, P-521, Ed25519); any other
    nonzero size is turned down with the unsupported-key-size error, and no
    key is produced. *)
Theorem KeygenSig_fixed_size (alg : string) (bits n : Z) (s : Scheme) :
  fixed_size alg = Some (n, s) →
  (bits = 0 ∨ bits = n → generates_on E s (KeygenSig E alg bits)) ∧
  (bits ≠ 0 → bits ≠ n → rejects ErrUnsupportedKeySize (KeygenSig E alg bits)).
Proof.
  intros H. apply fixed_size_inv in H.
  destruct H as [(-> & -> & ->)|[(-> & -> & ->)|[(-> & -> & ->)|(-> & -> & ->)]]];
    unfold KeygenSig, KeygenSig_check; eval_cases; cbn [from_option id];
    cbv beta iota.
  all: split; [intros Hb | intros Hb1 Hb2].
  all: repeat (case_bool_decide; try lia); cbn [andb]; cbv beta iota.
  all: try (intros w; reflexivity).
  all: try apply ecdsa_return_generates; try apply ed25519_return_generates.
Qed.

(** C2: under every RSA identifier, of [KeygenSig] and of [KeygenEnc], size
    0 becomes a 2048-bit modulus, a nonzero size below 2048 (negative sizes
    too) is turned down with the key-too-short error, and a size of 2048 or
    more is the modulus size asked of the generator. *)
Theorem Keygen_rsa_size (alg : string) (bits : Z) (m : M (Key * Key * error)) :
  (alg ∈ rsa_sig_algs ∧ m = KeygenSig E alg bits) ∨
  (alg ∈ rsa_enc_algs ∧ m = KeygenEnc E alg bits) →
  rsa_policy E bits m.
Proof.
  intros [[H ->] | [H ->]].
  - rewrite (KeygenSig_unfold_rsa _ _ H). unfold rsa_policy. simpl.
    repeat split; intros; repeat (case_bool_decide; try lia);
      try (intros w; reflexivity); subst; apply rsa_return_generates.
  - unfold rsa_enc_algs in H.
    unfold KeygenEnc. rewrite (case_of_true _ _ H). unfold rsa_policy. simpl.
    repeat split; intros; repeat (case_bool_decide; try lia);
      try (intros w; reflexivity); subst; apply rsa_return_generates.
Qed.

(** C3: under the four ECDH-ES identifiers [KeygenEnc] generates on P-256
    for size 0 or 256, on P-384 for 384, on P-521 for 521, and turns every
    other size down with the unsupported-curve-size error, generating
    nothing. *)
Theorem KeygenEnc_ecdh_curve (alg : string) (bits : Z) :
  alg ∈ ecdh_enc_algs →
  (bits = 0 ∨ bits = 256 → generates_on E (OnCurve P256) (KeygenEnc E alg bits)) ∧
  (bits = 384 → generates_on E (OnCurve P384) (KeygenEnc E alg bits)) ∧
  (bits = 521 → generates_on E (OnCurve P521) (KeygenEnc E alg bits)) ∧
  (bits ∉ [0; 256; 384; 521] →
     rejects ErrUnsupportedCurveSize (KeygenEnc E alg bits)).
Proof.
  intros H. unfold ecdh_enc_algs in H.
  assert (Hrsa : case_of alg [jose.RSA1_5; jose.RSA_OAEP; jose.RSA_OAEP_256] = false).
  { clear -H.
    repeat (apply elem_of_cons in H as [->|H]); try (by apply elem_of_nil in H);
      vm_compute; reflexivity. }
  unfold KeygenEnc. rewrite Hrsa, (case_of_true _ _ H).
  repeat split; intros Hb.
  - rewrite bool_decide_eq_true_2 by assumption. apply ecdsa_return_generates.
  - subst bits. simpl. apply ecdsa_return_generates.
  - subst bits. simpl. apply ecdsa_return_generates.
  - assert (bits ≠ 0 ∧ bits ≠ 256 ∧ bits ≠ 384 ∧ bits ≠ 521) as (? & ? & ? & ?).
    { repeat split; intros ->; apply Hb; rewrite !elem_of_cons; tauto. }
    rewrite bool_decide_eq_false_2 by lia.
    rewrite !bool_decide_eq_false_2 by assumption.
    intros w; reflexivity.
Qed.

(** C9: an identifier outside the ten signature identifiers makes
    [KeygenSig] return the unknown-algorithm error of `sig`, and one outside
    the seven encryption identifiers makes [KeygenEnc] return that of `enc`,
    whatever the size: the world is untouched and no size error is given.
    The encryption identifiers are outside the signature ones and the
    signature identifiers outside the encryption ones. *)
Theorem Keygen_unknown_alg (alg : string) (bits : Z) :
  (alg ∉ sig_algs → rejects ErrUnknownAlgSig (KeygenSig E alg bits)) ∧
  (alg ∉ enc_algs → rejects ErrUnknownAlgEnc (KeygenEnc E alg bits)) ∧
  Forall (λ a, a ∉ sig_algs) enc_algs ∧
  Forall (λ a, a ∉ enc_algs) sig_algs.
Proof.
  split; [|split; [|split]].
  - intros H. unfold sig_algs, curve_sig_algs, rsa_sig_algs in H. simpl in H.
    unfold KeygenSig, KeygenSig_check.
    rewrite !case_of_false by sublist_absent H. intros w; reflexivity.
  - intros H. unfold enc_algs, rsa_enc_algs, ecdh_enc_algs in H. simpl in H.
    unfold KeygenEnc.
    rewrite !case_of_false by sublist_absent H. intros w; reflexivity.
  - apply Forall_forall. intros a Ha. apply (bool_decide_unpack _).
    revert a Ha. apply Forall_forall. vm_compute. repeat constructor.
  - apply Forall_forall. intros a Ha. apply (bool_decide_unpack _).
    revert a Ha. apply Forall_forall. vm_compute. repeat constructor.
Qed.

End KeygenPolicy.

(** ** The key generators: what comes back with an error *)

Section KeygenErrors.
Context (E : Env).

(** An error of the first [switch] comes back with the nil pair. *)
Lemma KeygenSig_check_error (alg : string) (bits : Z) (e : Err) :
  KeygenSig_check alg bits = inl e →
  ∀ w, KeygenSig E alg bits w = (Done (KNil, KNil, Some e), w).
Proof. intros H w. unfold KeygenSig. rewrite H. reflexivity. Qed.

(** When no generator was called, a returned error comes with the nil
    pair. *)
Lemma KeygenSig_error_without_call (alg : string) (bits : Z) w pub priv e w' :
  KeygenSig E alg bits w = (Done (pub, priv, Some e), w') →
  log w' = log w → pub = KNil ∧ priv = KNil.
Proof.
  unfold KeygenSig. intros H Hlog.
  assert (Hgen : ∀ s m, generates_on E s m →
            m w = (Done (pub, priv, Some e), w') → False).
  { intros s m Hm Hw. destruct (Hm w) as (out & w1 & Hr & Hl & _).
    rewrite Hw in Hr. injection Hr as <- <-. rewrite Hlog in Hl.
    apply (f_equal length) in Hl. rewrite length_app in Hl. simpl in Hl. lia. }
  destruct (KeygenSig_check alg bits); [by injection H as <- <- _ _|].
  repeat (destruct (case_of alg _);
    [exfalso; first [ eapply (Hgen _ _ (ecdsa_return_generates E _)), H
                    | eapply (Hgen _ _ (ed25519_return_generates E)), H
                    | eapply (Hgen _ _ (rsa_return_generates E _)), H ]|]).
  by injection H as <- <- _ _.
Qed.

(** C4, where the code departs from it: when [ecdsa.GenerateKey] reports an
    error, and so hands back a nil key, [KeygenSig] does not return the
    error with an unset pair; it stops in [key.Public()] with a nil pointer
    dereference, after the generator call. *)
Theorem KeygenSig_generator_error_panics (w : World) (e : Err) (rd : list byte) :
  ecdsa_generate E P256 (reader w) = (None, Some e, rd) →
  KeygenSig E jose.ES256 0 w =
    (Panic nil_dereference, set_reader rd (emit (EvGenerateKey (OnCurve P256)) w)).
Proof.
  intros H. unfold KeygenSig, KeygenSig_check. eval_cases.
  cbn [from_option id]. cbv beta iota.
  repeat (case_bool_decide; try lia). cbn [andb]. cbv beta iota.
  unfold bind, ecdsa_GenerateKey. rewrite H. reflexivity.
Qed.

(** The same stop under an RSA identifier of [KeygenEnc]. *)
Lemma KeygenEnc_generator_error_panics (w : World) (e : Err) (rd : list byte) :
  rsa_generate E 2048 (reader w) = (None, Some e, rd) →
  KeygenEnc E jose.RSA_OAEP 0 w =
    (Panic nil_dereference, set_reader rd (emit (EvGenerateKey (RsaModulus 2048)) w)).
Proof.
  intros H. unfold KeygenEnc. eval_cases. cbv beta iota.
  repeat (case_bool_decide; try lia). cbv beta iota zeta.
  unfold bind, rsa_GenerateKey. rewrite H. reflexivity.
Qed.

(** Under EdDSA a failed generator's nil slices come back inside two
    interface values, neither of which is the nil interface. *)
Lemma KeygenSig_ed25519_error (w : World) (e : Err) (rd : list byte) :
  ed25519_generate E (reader w) = (None, None, Some e, rd) →
  KeygenSig E jose.EdDSA 0 w =
    (Done (KEd25519Public None, KEd25519Private None, Some e),
     set_reader rd (emit (EvGenerateKey Ed25519) w)).
Proof.
  intros H. unfold KeygenSig, KeygenSig_check. eval_cases.
  cbn [from_option id]. cbv beta iota.
  repeat (case_bool_decide; try lia). cbn [andb]. cbv beta iota.
  unfold bind, ed25519_GenerateKey. rewrite H. reflexivity.
Qed.

End KeygenErrors.

(** *** The theorems at concrete inputs *)

Lemma KeygenSig_fixed_size_witness :
  fixed_size jose.ES512 = Some (521, OnCurve P521) ∧
  generates_on demo_env (OnCurve P521) (KeygenSig demo_env jose.ES512 521) ∧
  rejects ErrUnsupportedKeySize (KeygenSig demo_env jose.ES512 512).
Proof.
  pose proof (KeygenSig_fixed_size demo_env jose.ES512 521 521 (OnCurve P521) eq_refl) as H1.
  pose proof (KeygenSig_fixed_size demo_env jose.ES512 512 521 (OnCurve P521) eq_refl) as H2.
  split; [reflexivity|]. split.
  - apply H1. right. reflexivity.
  - apply H2; lia.
Defined.

Lemma Keygen_rsa_size_witness :
  jose.PS384 ∈ rsa_sig_algs ∧
  rsa_policy demo_env 4096 (KeygenSig demo_env jose.PS384 4096).
Proof.
  assert (H : jose.PS384 ∈ rsa_sig_algs).
  { unfold rsa_sig_algs. rewrite !elem_of_cons. tauto. }
  split; [exact H|].
  apply (Keygen_rsa_size demo_env jose.PS384 4096). left. split; [exact H|reflexivity].
Defined.

Lemma KeygenEnc_ecdh_curve_witness :
  jose.ECDH_ES_A128KW ∈ ecdh_enc_algs ∧
  generates_on demo_env (OnCurve P384) (KeygenEnc demo_env jose.ECDH_ES_A128KW 384).
Proof.
  assert (H : jose.ECDH_ES_A128KW ∈ ecdh_enc_algs).
  { unfold ecdh_enc_algs. rewrite !elem_of_cons. tauto. }
  split; [exact H|].
  apply (KeygenEnc_ecdh_curve demo_env jose.ECDH_ES_A128KW 384 H). reflexivity.
Defined.

Lemma Keygen_unknown_alg_witness :
  (jose.RSA1_5 ∉ sig_algs) ∧
  rejects ErrUnknownAlgSig (KeygenSig demo_env jose.RSA1_5 (-7)).
Proof.
  assert (H : jose.RSA1_5 ∉ sig_algs).
  { apply (bool_decide_unpack _). vm_compute. exact I. }
  split; [exact H|].
  apply (Keygen_unknown_alg demo_env jose.RSA1_5 (-7)). exact H.
Defined.

Lemma KeygenSig_generator_error_panics_witness :
  ecdsa_generate demo_env P256 (reader (demo_world [])) =
    (None, Some (lib_error "EOF"), []) ∧
  (KeygenSig demo_env jose.ES256 0 (demo_world [])).1 = Panic nil_dereference.
Proof.
  split; [reflexivity|].
  rewrite (KeygenSig_generator_error_panics demo_env (demo_world [])
             (lib_error "EOF") [] eq_refl).
  reflexivity.
Defined.

(** ** The exclusive file writer *)

Section Writer.
Context (E : Env).

Lemma new_file_flags_excl :
  has_flag new_file_flags O_CREATE && has_flag new_file_flags O_EXCL = true.
Proof. reflexivity. Qed.

(** C5: on a path that exists [writeNewFile] fails with the
    file-already-exists error after the open attempt alone: nothing is
    written, and every file, the existing one among them, keeps its
    contents and permissions. *)
Theorem writeNewFile_existing (name : string) (data : list byte) (perm : Z)
    (w : World) (f : File) :
  files w !! name = Some f →
  ∃ err w',
    writeNewFile E name data perm w = (Done err, w') ∧
    err = Some (os_PathError "open" name EEXIST) ∧
    os_IsExist err = true ∧
    files w' = files w ∧
    files w' !! name = Some f ∧
    log w' = log w ++ [EvOpenFile name new_file_flags perm].
Proof.
  intros H. unfold writeNewFile, bind, os_OpenFile.
  fold new_file_flags. cbn [files emit]. rewrite H, new_file_flags_excl.
  eexists _, _. split; [reflexivity|]. repeat split; assumption.
Qed.

(** C6: once the open has succeeded, the write and then the close are
    performed on every path, and the error returned is the write's error
    if it has one, else the short-write error if fewer bytes than the
    payload were written, else the close's error, else nil. *)
Theorem writeNewFile_opened (name : string) (data : list byte) (perm : Z)
    (w w1 : World) (f : os_File) :
  os_OpenFile E name new_file_flags perm w = (Done (Some f, None), w1) →
  ∃ w2,
    writeNewFile E name data perm w =
      (Done (write_outcome (write_result E f data).2 (write_result E f data).1
               (Z.of_nat (length data)) (close_result E f)), w2) ∧
    log w2 = log w1 ++ [EvWrite f data; EvClose f].
Proof.
  intros H. unfold writeNewFile, bind. fold new_file_flags. rewrite H.
  unfold file_Write, file_Close, write_outcome.
  destruct (write_result E f data) as [n [e|]]; cbn [fst snd];
    [|destruct (bool_decide (n < Z.of_nat (length data)))];
    (eexists; split; [reflexivity|]);
    simpl; rewrite <- app_assoc; reflexivity.
Qed.

(** The open succeeds on a path that is free and can be created. *)
Lemma os_OpenFile_new (name : string) (perm : Z) (w : World) :
  files w !! name = None → create_fault E name = None →
  ∃ w1, os_OpenFile E name new_file_flags perm w = (Done (Some name, None), w1) ∧
        log w1 = log w ++ [EvOpenFile name new_file_flags perm].
Proof.
  intros H1 H2. unfold os_OpenFile. cbn [files emit]. rewrite H1, H2.
  change (has_flag new_file_flags O_CREATE) with true. cbv iota.
  eexists. split; reflexivity.
Qed.

End Writer.

Lemma writeNewFile_existing_witness :
  let w := set_files {[ "k.json" := {| f_data := [1; 2]; f_mode := 256 |} ]}
             (demo_world []) in
  files w !! "k.json" = Some {| f_data := [1; 2]; f_mode := 256 |} ∧
  (writeNewFile demo_env "k.json" [9] (octal 4 0 0) w).1 =
    Done (Some (os_PathError "open" "k.json" EEXIST)).
Proof.
  intros w.
  assert (H : files w !! "k.json" = Some {| f_data := [1; 2]; f_mode := 256 |})
    by reflexivity.
  split; [exact H|].
  destruct (writeNewFile_existing demo_env "k.json" [9] (octal 4 0 0) w _ H)
    as (err & w' & -> & -> & _).
  reflexivity.
Defined.

Lemma writeNewFile_opened_witness :
  ∃ w1,
    os_OpenFile demo_env "k.json" new_file_flags (octal 4 0 0) (demo_world []) =
      (Done (Some "k.json", None), w1) ∧
    (writeNewFile demo_env "k.json" [9; 9] (octal 4 0 0) (demo_world [])).1 = Done None.
Proof.
  eexists. split; [reflexivity|].
  destruct (writeNewFile_opened demo_env "k.json" [9; 9] (octal 4 0 0)
              (demo_world []) _ "k.json" eq_refl) as (w2 & -> & _).
  reflexivity.
Defined.

(** ** The output namer *)

Lemma chars_app (s t : string) : chars (s +:+ t) = chars s ++ chars t.
Proof. induction s as [|c s IH]; [reflexivity|]. cbn. by rewrite <- IH. Qed.

Lemma chars_inj (s t : string) : chars s = chars t → s = t.
Proof.
  intros H. rewrite <- (string_of_list_ascii_of_string s),
    <- (string_of_list_ascii_of_string t). by rewrite H.
Qed.

(** Both sides are the same characters in the same order. *)
Ltac same_chars :=
  apply chars_inj; rewrite ?chars_app;
  repeat first [ rewrite chars_app | rewrite app_nil_r | rewrite <- app_assoc
               | progress cbn [chars app] ];
  reflexivity.

Lemma artifact_name_stem k p u a i :
  artifact_name k p u a i = stem k u a +:+ i +:+ suffix_of p.
Proof. unfold artifact_name, stem, suffix_of. same_chars. Qed.

(** What [main] builds with [Sprintf] and [+] are the artifact names. *)
Lemma Sprintf_jwk u a i p :
  Sprintf "jwk_%s_%s_%s" [u; a; i] +:+ suffix_of p = artifact_name SingleKey p u a i.
Proof. unfold artifact_name, kind_tag, suffix_of. cbn [Sprintf]. destruct p; same_chars. Qed.

Lemma Sprintf_jwks u a i p :
  Sprintf "jwks_%s_%s_%s" [u; a; i] +:+ suffix_of p = artifact_name KeySet p u a i.
Proof. unfold artifact_name, kind_tag, suffix_of. cbn [Sprintf]. destruct p; same_chars. Qed.

(** No stem of the enumerated kinds, uses and algorithms begins another. *)
Lemma stems_prefix_free :
  Forall (λ k1, Forall (λ k2, Forall (λ u1, Forall (λ u2,
    Forall (λ a1, Forall (λ a2,
      chars (stem k1 u1 a1) `prefix_of` chars (stem k2 u2 a2) →
      (k1, u1, a1) = (k2, u2, a2)) algs) algs) uses) uses)
    [SingleKey; KeySet]) [SingleKey; KeySet].
Proof. apply (bool_decide_unpack _). vm_compute. exact I. Qed.

Lemma Kind_enumerated (k : Kind) : k ∈ [SingleKey; KeySet].
Proof. destruct k; rewrite !elem_of_cons; tauto. Qed.

Lemma stem_inj k1 u1 a1 k2 u2 a2 (r1 r2 : list ascii) :
  u1 ∈ uses → u2 ∈ uses → a1 ∈ algs → a2 ∈ algs →
  chars (stem k1 u1 a1) ++ r1 = chars (stem k2 u2 a2) ++ r2 →
  (k1, u1, a1) = (k2, u2, a2) ∧ r1 = r2.
Proof.
  intros Hu1 Hu2 Ha1 Ha2 H.
  pose proof stems_prefix_free as F.
  assert (Hfree : ∀ k k' u u' a a', u ∈ uses → u' ∈ uses → a ∈ algs → a' ∈ algs →
            chars (stem k u a) `prefix_of` chars (stem k' u' a') →
            (k, u, a) = (k', u', a')).
  { intros k k' u u' a a' ? ? ? ?.
    rewrite Forall_forall in F. specialize (F k (Kind_enumerated k)).
    rewrite Forall_forall in F. specialize (F k' (Kind_enumerated k')).
    rewrite Forall_forall in F. specialize (F u ltac:(assumption)).
    rewrite Forall_forall in F. specialize (F u' ltac:(assumption)).
    rewrite Forall_forall in F. specialize (F a ltac:(assumption)).
    rewrite Forall_forall in F. exact (F a' ltac:(assumption)). }
  assert (Heq : (k1, u1, a1) = (k2, u2, a2)).
  { destruct (prefix_weak_total (chars (stem k1 u1 a1)) (chars (stem k2 u2 a2))
                (chars (stem k1 u1 a1) ++ r1)) as [P|P].
    - by eexists.
    - rewrite H. by eexists.
    - by apply Hfree.
    - symmetry. by apply Hfree. }
  split; [exact Heq|].
  injection Heq as -> -> ->. by apply app_inv_head in H.
Qed.

(** C8, as the code has it: with use and algorithm among the enumerated
    values, two tuples get the same file name only if they agree on kind,
    use and algorithm and either are the same tuple, or one is the public
    artifact of a key id and the other the private artifact of that key
    id followed by ["-pub"]. *)
Theorem artifact_name_collisions k1 p1 u1 a1 i1 k2 p2 u2 a2 i2 :
  u1 ∈ uses → u2 ∈ uses → a1 ∈ algs → a2 ∈ algs →
  artifact_name k1 p1 u1 a1 i1 = artifact_name k2 p2 u2 a2 i2 →
  k1 = k2 ∧ u1 = u2 ∧ a1 = a2 ∧
  ((p1 = p2 ∧ i1 = i2) ∨
   (p1 = true ∧ p2 = false ∧ i2 = i1 +:+ "-pub") ∨
   (p1 = false ∧ p2 = true ∧ i1 = i2 +:+ "-pub")).
Proof.
  intros Hu1 Hu2 Ha1 Ha2 H.
  rewrite !artifact_name_stem in H. apply (f_equal chars) in H.
  rewrite !(chars_app (stem _ _ _)) in H.
  apply stem_inj in H as [Heq H]; try assumption.
  injection Heq as -> -> ->. repeat (split; [reflexivity|]).
  rewrite !chars_app in H.
  destruct p1, p2; cbn [suffix_of] in H.
  - left. split; [reflexivity|]. apply app_inv_tail in H. by apply chars_inj.
  - right. left. repeat (split; [reflexivity|]).
    change (chars "-pub.json") with (chars "-pub" ++ chars ".json") in H.
    rewrite app_assoc in H. apply app_inv_tail in H.
    apply chars_inj. by rewrite chars_app.
  - right. right. repeat (split; [reflexivity|]).
    change (chars "-pub.json") with (chars "-pub" ++ chars ".json") in H.
    rewrite app_assoc in H. apply app_inv_tail in H.
    apply chars_inj. by rewrite chars_app.
  - left. split; [reflexivity|]. apply app_inv_tail in H. by apply chars_inj.
Qed.

Lemma sig_in_uses : "sig" ∈ uses.
Proof. unfold uses. rewrite !elem_of_cons. tauto. Qed.

Lemma ES256_in_algs : jose.ES256 ∈ algs.
Proof. apply (bool_decide_unpack _). vm_compute. exact I. Qed.

(** C8, as the specification states it, fails: the public artifact of key
    id ["a"] and the private artifact of key id ["a-pub"] are both
    [jwk_sig_ES256_a-pub.json]. *)
Lemma naming_not_injective : ¬ naming_injective.
Proof.
  intros Inj.
  specialize (Inj SingleKey true "sig" jose.ES256 "a"
                  SingleKey false "sig" jose.ES256 "a-pub"
                  sig_in_uses sig_in_uses ES256_in_algs ES256_in_algs eq_refl).
  discriminate Inj.
Qed.

Lemma artifact_name_collisions_witness :
  artifact_name SingleKey true "sig" jose.ES256 "a" =
    artifact_name SingleKey false "sig" jose.ES256 "a-pub" ∧
  "a-pub" = "a" +:+ "-pub".
Proof.
  split; [reflexivity|].
  destruct (artifact_name_collisions SingleKey true "sig" jose.ES256 "a"
              SingleKey false "sig" jose.ES256 "a-pub"
              sig_in_uses sig_in_uses ES256_in_algs ES256_in_algs eq_refl)
    as (_ & _ & _ & [[D _]|[(_ & _ & R)|(D & _)]]).
  - discriminate D.
  - exact R.
  - discriminate D.
Defined.

(** ** Runs of [main] *)

Lemma emits_ret {A} (a : A) (P : Outcome A → list Event → Prop) :
  P (Done a) [] → emits (ret a) P.
Proof. intros H w. exists []. by rewrite app_nil_r. Qed.

Lemma emits_bind {A B} (m : M A) (k : A → M B) Q (P : Outcome B → list Event → Prop) :
  emits m Q →
  (∀ a l1, Q (Done a) l1 → emits (k a) (λ o l2, P o (l1 ++ l2))) →
  (∀ msg l1, Q (Panic msg) l1 → P (Panic msg) l1) →
  (∀ c l1, Q (Exit c) l1 → P (Exit c) l1) →
  emits (bind m k) P.
Proof.
  intros Hm Hk Hp He w. destruct (Hm w) as (l1 & Hl1 & HQ).
  unfold bind. destruct (m w) as [[a|msg|c] w1]; simpl in *.
  - destruct (Hk a l1 HQ w1) as (l2 & Hl2 & HP).
    exists (l1 ++ l2). split; [|exact HP].
    by rewrite Hl2, Hl1, app_assoc.
  - exists l1. eauto.
  - exists l1. eauto.
Qed.

Lemma emits_mono {A} (m : M A) (Q P : Outcome A → list Event → Prop) :
  emits m Q → (∀ o l, Q o l → P o l) → emits m P.
Proof. intros Hm H w. destruct (Hm w) as (l & ? & ?). eauto. Qed.

Lemma emits_trace (e : Event) : emits (trace e) (λ o l, o = Done tt ∧ l = [e]).
Proof. intros w. exists [e]. done. Qed.

Lemma emits_Fatalf {A} f args :
  emits (Fatalf (A:=A) f args) (λ o l, o = Exit 1 ∧ l = [EvStderr f args]).
Proof. intros w. exists [EvStderr f args]. done. Qed.

Lemma emits_FatalIfError err f args :
  emits (FatalIfError err f args)
    (λ o l, (err = None ∧ o = Done tt ∧ l = []) ∨ (o = Exit 1 ∧ l = [EvStderr f args])).
Proof.
  destruct err; simpl.
  - eapply emits_mono; [apply emits_Fatalf|]. intros o l H. by right.
  - apply emits_ret. by left.
Qed.

Lemma emits_rand_Read (b : list byte) :
  emits (rand_Read b)
    (λ o l, ∃ b' err x, o = Done (b', err) ∧ length b' = length b ∧
                        l = [EvRandRead x] ∧ (err = None → x = b')).
Proof.
  intros w. unfold rand_Read. case_bool_decide as Hn; simpl.
  - eexists. split; [reflexivity|]. eexists _, _, _. split; [reflexivity|].
    rewrite length_take. split; [lia|done].
  - eexists. split; [reflexivity|]. eexists _, _, _. split; [reflexivity|].
    rewrite length_app, length_drop. split; [lia|done].
Qed.

Section Runs.
Context (E : Env).

Lemma emits_generate {A} (m : M A) (s : Scheme) :
  (∀ w, ∃ o rd, m w = (o, set_reader rd (emit (EvGenerateKey s) w))) →
  emits m (λ _ l, crypto_only l).
Proof.
  intros H w. destruct (H w) as (o & rd & ->). exists [EvGenerateKey s].
  split; [reflexivity|]. by repeat split.
Qed.

Lemma emits_ecdsa_return (c : Curve) :
  emits (let* (key, err) := ecdsa_GenerateKey E c in
         let* pub := ecdsa_Public key in
         ret (pub, KEcdsaPrivate key, err)) (λ _ l, crypto_only l).
Proof.
  apply (emits_generate _ (OnCurve c)). intros w.
  unfold bind, ecdsa_GenerateKey.
  destruct (ecdsa_generate E c (reader w)) as [[[k|] err] rd]; simpl; eauto.
Qed.

Lemma emits_rsa_return (bits : Z) :
  emits (let* (key, err) := rsa_GenerateKey E bits in
         let* pub := rsa_Public key in
         ret (pub, KRsaPrivate key, err)) (λ _ l, crypto_only l).
Proof.
  apply (emits_generate _ (RsaModulus bits)). intros w.
  unfold bind, rsa_GenerateKey.
  destruct (rsa_generate E bits (reader w)) as [[[k|] err] rd]; simpl; eauto.
Qed.

Lemma emits_ed25519_return :
  emits (let* (pub, key, err) := ed25519_GenerateKey E in
         ret (KEd25519Public pub, KEd25519Private key, err)) (λ _ l, crypto_only l).
Proof.
  apply (emits_generate _ Ed25519). intros w.
  unfold bind, ed25519_GenerateKey.
  destruct (ed25519_generate E (reader w)) as [[[pub key] err] rd]; simpl; eauto.
Qed.

Lemma crypto_only_nil : crypto_only [].
Proof. by repeat split. Qed.

Lemma emits_KeygenSig alg bits : emits (KeygenSig E alg bits) (λ _ l, crypto_only l).
Proof.
  unfold KeygenSig. destruct (KeygenSig_check alg bits).
  { apply emits_ret, crypto_only_nil. }
  repeat (destruct (case_of alg _);
    [first [apply emits_ecdsa_return | apply emits_ed25519_return | apply emits_rsa_return]|]).
  apply emits_ret, crypto_only_nil.
Qed.

Lemma emits_KeygenEnc alg bits : emits (KeygenEnc E alg bits) (λ _ l, crypto_only l).
Proof.
  unfold KeygenEnc.
  destruct (case_of alg _).
  { cbv zeta. case_bool_decide; [apply emits_ret, crypto_only_nil | apply emits_rsa_return]. }
  destruct (case_of alg _); [|apply emits_ret, crypto_only_nil].
  repeat (case_bool_decide; [apply emits_ecdsa_return|]).
  apply emits_ret, crypto_only_nil.
Qed.

Lemma emits_writeNewFile name data perm :
  emits (writeNewFile E name data perm)
    (λ o l, ∃ err, o = Done err ∧ opened l = [(name, perm)] ∧ printed l = [] ∧
                   rand_reads l = [] ∧
                   (err = None → written l = [(name, data)])).
Proof.
  intros w. unfold writeNewFile, bind, os_OpenFile. fold new_file_flags.
  cbn [files emit]. rewrite new_file_flags_excl.
  change (has_flag new_file_flags O_CREATE) with true. cbv iota.
  destruct (files w !! name) as [f|]; [|destruct (create_fault E name)].
  - exists [EvOpenFile name new_file_flags perm]. split; [reflexivity|].
    eexists. split; [reflexivity|]. repeat split. intros [=].
  - exists [EvOpenFile name new_file_flags perm]. split; [reflexivity|].
    eexists. split; [reflexivity|]. repeat split. intros [=].
  - unfold file_Write, file_Close.
    destruct (write_result E name data) as [n err].
    exists [EvOpenFile name new_file_flags perm; EvWrite name data; EvClose name].
    split; [unfold ret; cbn [log emit set_files snd]; by rewrite <- !app_assoc|].
    eexists. split; [reflexivity|]. by repeat split.
Qed.

End Runs.

Lemma opened_app l1 l2 : opened (l1 ++ l2) = opened l1 ++ opened l2.
Proof. apply omap_app. Qed.
Lemma written_app l1 l2 : written (l1 ++ l2) = written l1 ++ written l2.
Proof. apply omap_app. Qed.
Lemma printed_app l1 l2 : printed (l1 ++ l2) = printed l1 ++ printed l2.
Proof. apply omap_app. Qed.
Lemma rand_reads_app l1 l2 : rand_reads (l1 ++ l2) = rand_reads l1 ++ rand_reads l2.
Proof. apply omap_app. Qed.

(** Split the projections of a log along its stretches and use what is
    known of each. *)
Ltac project :=
  rewrite ?opened_app, ?written_app, ?printed_app, ?rand_reads_app;
  repeat match goal with
  | H : opened _ = _ |- _ => rewrite H
  | H : written _ = _ |- _ => rewrite H
  | H : printed _ = _ |- _ => rewrite H
  | H : rand_reads _ = _ |- _ => rewrite H
  end;
  cbn [opened written printed rand_reads omap list_omap app].

Lemma emits_kid_stage (fl : Flags) :
  emits
    (if kidRand fl then
       if bool_decide (kid fl = "") then
         let* (b, err) := rand_Read (replicate 5 0) in
         FatalIfError err "can't Read() crypto/rand" [] ;;;
         ret (base32_EncodeToString b)
       else FatalUsage "can't combine --kid and --kid-rand"
     else ret (kid fl))
    (kid_stage_post fl).
Proof.
  unfold kid_stage_post. destruct (kidRand fl).
  - case_bool_decide as Hk.
    + eapply emits_bind; [apply emits_rand_Read| | |].
      * intros [b err] l1 (b' & err' & x & [= <- <-] & Hlen & -> & Hx).
        eapply emits_bind; [apply emits_FatalIfError| | |].
        -- intros [] l2 [(-> & _ & ->)|[[=] _]].
           apply emits_ret. rewrite (Hx eq_refl). cbn.
           repeat split; try done. exists b. by rewrite Hlen, length_replicate.
        -- intros msg l2 [(_ & [=] & _)|[[=] _]].
        -- intros c l2 [(_ & [=] & _)|[_ ->]]. by repeat split.
      * intros msg l1 (? & ? & ? & [=] & _).
      * intros c l1 (? & ? & ? & [=] & _).
    + eapply emits_mono; [apply emits_Fatalf|]. intros o l [-> ->]. by repeat split.
  - apply emits_ret. by repeat split.
Qed.

Section Stages.
Context (E : Env).

Lemma emits_keygen_stage (fl : Flags) :
  emits
    (if bool_decide (use fl = "sig") then KeygenSig E (alg fl) (bits fl)
     else if bool_decide (use fl = "enc") then KeygenEnc E (alg fl) (bits fl)
     else ret (KNil, KNil, None))
    (λ _ l, crypto_only l).
Proof.
  repeat case_bool_decide.
  - apply emits_KeygenSig.
  - apply emits_KeygenEnc.
  - apply emits_ret, crypto_only_nil.
Qed.

(** A file is written, or the run ends there. *)
Lemma emits_write_step name data perm f args (k : M unit)
    (P : Outcome unit → list Event → Prop) :
  (∀ l1, opened l1 = [(name, perm)] → written l1 = [(name, data)] →
         printed l1 = [] → rand_reads l1 = [] →
         emits k (λ o l2, P o (l1 ++ l2))) →
  (∀ l1, opened l1 = [(name, perm)] → printed l1 = [] → rand_reads l1 = [] →
         P (Exit 1) l1) →
  emits (let* err := writeNewFile E name data perm in
         FatalIfError err f args ;;; k) P.
Proof.
  intros Hk Hx.
  eapply emits_bind; [apply emits_writeNewFile| | |].
  - intros err l1 (err' & [= <-] & Ho & Hp & Hr & Hw).
    eapply emits_bind; [apply emits_FatalIfError| | |].
    + intros [] l2 [(-> & _ & ->)|[[=] _]]. apply Hk; auto.
    + intros msg l2 [(_ & [=] & _)|[[=] _]].
    + intros c l2 [(_ & [=] & _)|[[= ->] ->]].
      apply Hx; rewrite ?opened_app, ?printed_app, ?rand_reads_app, ?Ho, ?Hp, ?Hr; done.
  - intros msg l1 (? & [=] & _).
  - intros c l1 (? & [=] & _).
Qed.

Lemma emits_Printf_then f args (k : M unit) (P : Outcome unit → list Event → Prop) :
  emits k (λ o l2, P o ([EvPrintf f args] ++ l2)) →
  emits (Printf f args ;;; k) P.
Proof.
  intros Hk. eapply emits_bind; [apply emits_trace| | |].
  - by intros [] l1 [_ ->].
  - by intros msg l1 [[=] _].
  - by intros c l1 [[=] _].
Qed.

Lemma emits_Println_then doc (k : M unit) (P : Outcome unit → list Event → Prop) :
  emits k (λ o l2, P o ([EvPrintln doc] ++ l2)) →
  emits (Println doc ;;; k) P.
Proof.
  intros Hk. eapply emits_bind; [apply emits_trace| | |].
  - by intros [] l1 [_ ->].
  - by intros msg l1 [[=] _].
  - by intros c l1 [[=] _].
Qed.

Lemma emits_Printf f args (P : Outcome unit → list Event → Prop) :
  P (Done tt) [EvPrintf f args] → emits (Printf f args) P.
Proof. intros H. eapply emits_mono; [apply emits_trace|]. by intros o l [-> ->]. Qed.

Lemma emits_Println doc (P : Outcome unit → list Event → Prop) :
  P (Done tt) [EvPrintln doc] → emits (Println doc) P.
Proof. intros H. eapply emits_mono; [apply emits_trace|]. by intros o l [-> ->]. Qed.

End Stages.

Section Output.
Context (E : Env).

Lemma emits_output_stage (fl : Flags) (id : string)
    (pubJS privJS pubJSJWKS privJSJWKS : list byte) :
  emits
    (if bool_decide (id = "") then
       Printf "==> jwk_%s-pub.json <==\n" [alg fl] ;;;
       Println pubJS ;;;
       Printf "==> jwk_%s.json <==\n" [alg fl] ;;;
       Println privJS ;;;
       if jwks fl then
         Printf "==> jwks_%s-pub.json <==\n" [alg fl] ;;;
         Println pubJSJWKS ;;;
         Printf "==> jwks_%s.json <==\n" [alg fl] ;;;
         Println privJSJWKS
       else ret tt
     else
       let fname := Sprintf "jwk_%s_%s_%s" [use fl; alg fl; id] in
       let* err := writeNewFile E (fname +:+ "-pub.json") pubJS (octal 4 4 4) in
       FatalIfError err "can't write public key with JWK to file %s-pub.json" [fname] ;;;
       Printf "Written public key with JWK to %s-pub.json\n" [fname] ;;;
       let* err := writeNewFile E (fname +:+ ".json") privJS (octal 4 0 0) in
       FatalIfError err "cant' write private key with JWK to file %s.json" [fname] ;;;
       Printf "Written private key with JWK to %s.json\n" [fname] ;;;
       if jwks fl then
         let fname := Sprintf "jwks_%s_%s_%s" [use fl; alg fl; id] in
         let* err := writeNewFile E (fname +:+ "-pub.json") pubJSJWKS (octal 4 4 4) in
         FatalIfError err "can't write public key with JWKS to file %s-pub.json" [fname] ;;;
         Printf "Written public key with JWKS to %s-pub.json\n" [fname] ;;;
         let* err := writeNewFile E (fname +:+ ".json") privJSJWKS (octal 4 0 0) in
         FatalIfError err "cant' write private key with JWKS to file %s.json" [fname] ;;;
         Printf "Written private key with JWKS to %s.json\n" [fname]
       else ret tt)
    (output_post fl id pubJS privJS pubJSJWKS privJSJWKS).
Proof.
  unfold output_post. case_bool_decide as Hid.
  - do 2 (apply emits_Printf_then, emits_Println_then).
    destruct (jwks fl).
    + apply emits_Printf_then, emits_Println_then, emits_Printf_then, emits_Println.
      by repeat split.
    + apply emits_ret. by repeat split.
  - cbv zeta. unfold expected_files, artifact_perm.
    pose proof (Sprintf_jwk (use fl) (alg fl) id true) as N1.
    pose proof (Sprintf_jwk (use fl) (alg fl) id false) as N2.
    pose proof (Sprintf_jwks (use fl) (alg fl) id true) as N3.
    pose proof (Sprintf_jwks (use fl) (alg fl) id false) as N4.
    cbn [suffix_of] in N1, N2, N3, N4. rewrite N1, N2, N3, N4.
    apply emits_write_step; [intros l1 O1 W1 P1 R1|
      intros l1 O1 P1 R1; project; repeat split; try done; by eexists].
    apply emits_Printf_then.
    apply emits_write_step; [intros l2 O2 W2 P2 R2|
      intros l2 O2 P2 R2; project; repeat split; try done; by eexists].
    apply emits_Printf_then.
    destruct (jwks fl).
    + apply emits_write_step; [intros l3 O3 W3 P3 R3|
        intros l3 O3 P3 R3; project; repeat split; try done; by eexists].
      apply emits_Printf_then.
      apply emits_write_step; [intros l4 O4 W4 P4 R4|
        intros l4 O4 P4 R4; project; repeat split; try done; by eexists].
      apply emits_Printf. project. by repeat split.
    + apply emits_ret. project. by repeat split.
Qed.

End Output.

Section Main.
Context (E : Env).

Lemma emits_ret_eq {A} (a : A) : emits (ret a) (λ o l, o = Done a ∧ l = []).
Proof. by apply emits_ret. Qed.

Lemma emits_jwks_stage (fl : Flags) (pub priv : JSONWebKey) :
  emits
    (if jwks fl then
       let '(privJSJWKS, err) := json_Marshal_set E [priv] in
       FatalIfError err "can't Marshal private key with JWKS to JSON" [] ;;;
       let '(pubJSJWKS, err) := json_Marshal_set E [pub] in
       FatalIfError err "can't Marshal public key with JWKS to JSON" [] ;;;
       ret (if format fl then formatJSON E pubJSJWKS else pubJSJWKS,
            if format fl then formatJSON E privJSJWKS else privJSJWKS)
     else ret ([], []))
    (λ o l, crypto_only l ∧
            ∀ a b, o = Done (a, b) → jwks fl = true →
                   a = formatted E fl (json_Marshal_set E [pub]).1 ∧
                   b = formatted E fl (json_Marshal_set E [priv]).1).
Proof.
  destruct (jwks fl); [|apply emits_ret; split; [apply crypto_only_nil|done]].
  destruct (json_Marshal_set E [priv]) as [privJSJWKS e1].
  eapply emits_bind; [apply emits_FatalIfError| | |].
  - intros [] l1 [(-> & _ & ->)|[[=] _]].
    destruct (json_Marshal_set E [pub]) as [pubJSJWKS e2].
    eapply emits_bind; [apply emits_FatalIfError| | |].
    + intros [] l2 [(-> & _ & ->)|[[=] _]].
      apply emits_ret. split; [apply crypto_only_nil|].
      by intros a b [= <- <-] _.
    + intros msg l2 [(_ & [=] & _)|[[=] _]].
    + intros c l2 [(_ & [=] & _)|[_ ->]]. by split.
  - intros msg l1 [(_ & [=] & _)|[[=] _]].
  - intros c l1 [(_ & [=] & _)|[_ ->]]. by split.
Qed.

Lemma main_emits (fl : Flags) : emits (main E fl) (main_post E fl).
Proof.
  unfold main.
  eapply emits_bind; [apply emits_kid_stage| | |];
    [|intros ? l1 (O1 & W1 & P1 & _); left; by repeat split ..].
  intros id l1 (O1 & W1 & P1 & K).
  eapply emits_bind; [apply emits_keygen_stage| | |];
    [|intros ? l2 (R2 & O2 & W2 & P2); left; project; by repeat split ..].
  intros [[pubKey privKey] err] l2 (R2 & O2 & W2 & P2).
  eapply emits_bind; [apply emits_FatalIfError| | |];
    [|intros msg l3 [(_ & [=] & _)|[[=] _]]
     |intros c l3 [(_ & [=] & _)|[_ ->]]; left; project; by repeat split].
  intros [] l3 [(-> & _ & ->)|[[=] _]].
  fold (web_key fl id privKey). fold (web_key fl id pubKey).
  destruct (jwk_IsPublic E (web_key fl id privKey)) eqn:Ipriv; cbn [orb negb].
  { eapply emits_bind; [apply emits_Fatalf|intros ? ? [[=] _] ..|];
      [intros c l4 [_ ->]; left; project; by repeat split]. }
  destruct (jwk_IsPublic E (web_key fl id pubKey)) eqn:Ipub; cbn [orb negb];
    [|eapply emits_bind; [apply emits_Fatalf|intros ? ? [[=] _] ..|];
      [intros c l4 [_ ->]; left; project; by repeat split]].
  destruct (negb (jwk_Valid E (web_key fl id privKey))
            || negb (jwk_Valid E (web_key fl id pubKey))).
  { eapply emits_bind; [apply emits_Fatalf|intros ? ? [[=] _] ..|];
      [intros c l4 [_ ->]; left; project; by repeat split]. }
  eapply emits_bind; [apply emits_ret_eq| |intros ? ? [[=] _] ..].
  intros [] l4 [_ ->].
  destruct (jwk_MarshalJSON E (web_key fl id privKey)) as [privJS e1] eqn:M1.
  eapply emits_bind; [apply emits_FatalIfError| | |];
    [|intros msg l5 [(_ & [=] & _)|[[=] _]]
     |intros c l5 [(_ & [=] & _)|[_ ->]]; left; project; by repeat split].
  intros [] l5 [(-> & _ & ->)|[[=] _]].
  destruct (jwk_MarshalJSON E (web_key fl id pubKey)) as [pubJS e2] eqn:M2.
  eapply emits_bind; [apply emits_FatalIfError| | |];
    [|intros msg l6 [(_ & [=] & _)|[[=] _]]
     |intros c l6 [(_ & [=] & _)|[_ ->]]; left; project; by repeat split].
  intros [] l6 [(-> & _ & ->)|[[=] _]].
  eapply emits_bind; [apply emits_jwks_stage| | |];
    [|intros ? l7 [(R7 & O7 & W7 & P7) _]; left; project; by repeat split ..].
  intros [pubJSJWKS privJSJWKS] l7 [(R7 & O7 & W7 & P7) J].
  specialize (J _ _ eq_refl).
  eapply emits_mono; [apply emits_output_stage|].
  intros o l8 [R8 Hout]. right. exists id, pubKey, privKey.
  split; [|split; [exact Ipub|split; [exact Ipriv|]]].
  - unfold kid_of_run. destruct (kidRand fl).
    + destruct K as (Hk & b & Hlen & Hid & R1). split; [exact Hk|].
      exists b. repeat split; try done. intros _. by project.
    + destruct K as (Hid & R1). split; [exact Hid|]. by project.
  - case_bool_decide as Hid.
    + destruct Hout as (-> & O8 & W8 & P8). project.
      repeat split. unfold console_docs, formatted. rewrite M1, M2. cbn [fst].
      destruct (jwks fl); [destruct (J eq_refl) as [-> ->]|]; reflexivity.
    + destruct Hout as (P8 & Pre & Hdone). project.
      split; [done|]. split; [exact Pre|]. intros Ho.
      destruct (Hdone Ho) as [O8 W8]. project. split; [done|].
      unfold expected_docs, formatted. rewrite M1, M2. cbn [fst].
      destruct (jwks fl); [destruct (J eq_refl) as [-> ->]|]; reflexivity.
Qed.

End Main.

(** ** The key id and the artifacts of a run *)


(** The RFC 4648 test vectors. *)
Example base32_fooba : base32_EncodeToString [102; 111; 111; 98; 97] = "MZXW6YTB".
Proof. reflexivity. Qed.

Example base32_foobar :
  base32_EncodeToString [102; 111; 111; 98; 97; 114] = "MZXW6YTBOI======".
Proof. reflexivity. Qed.

(** A read that succeeds hands out the next bytes of the reader. *)
Lemma rand_Read_success (b b' : list byte) (w w' : World) :
  rand_Read b w = (Done (b', None), w') →
  b' = take (length b) (reader w) ∧ reader w' = drop (length b) (reader w) ∧
  log w' = log w ++ [EvRandRead b'].
Proof.
  unfold rand_Read. case_bool_decide; intros [= <- <-]. by repeat split.
Qed.

Section Artifacts.
Context (E : Env).



End Artifacts.

(** The demo run: key id AEBAGBAF from the bytes 1 to 5, four files. *)
Example demo_run :
  let r := main demo_env demo_flags (demo_world [1; 2; 3; 4; 5; 6; 7]) in
  r.1 = Done tt ∧
  opened (log r.2) =
    [ ("jwk_sig_ES256_AEBAGBAF-pub.json", 292); ("jwk_sig_ES256_AEBAGBAF.json", 256);
      ("jwks_sig_ES256_AEBAGBAF-pub.json", 292); ("jwks_sig_ES256_AEBAGBAF.json", 256) ] ∧
  printed (log r.2) = [].
Proof. vm_compute. repeat split. Qed.



(** ** Further properties of the key generators *)


Section KeygenShape.
Context (E : Env).

Lemma ecdsa_return_shape (c : Curve) w pub priv err w' :
  (let* (key, err) := ecdsa_GenerateKey E c in
   let* pub := ecdsa_Public key in
   ret (pub, KEcdsaPrivate key, err)) w = (Done (pub, priv, err), w') →
  generated_pair (OnCurve c) pub priv w w'.
Proof.
  unfold bind, ecdsa_GenerateKey.
  destruct (ecdsa_generate E c (reader w)) as [[[k|] e] rd]; simpl; [|discriminate].
  intros [= <- <- <- <-]. repeat split. by eexists.
Qed.

Lemma rsa_return_shape (bits : Z) w pub priv err w' :
  (let* (key, err) := rsa_GenerateKey E bits in
   let* pub := rsa_Public key in
   ret (pub, KRsaPrivate key, err)) w = (Done (pub, priv, err), w') →
  generated_pair (RsaModulus bits) pub priv w w'.
Proof.
  unfold bind, rsa_GenerateKey.
  destruct (rsa_generate E bits (reader w)) as [[[k|] e] rd]; simpl; [|discriminate].
  intros [= <- <- <- <-]. repeat split. by eexists.
Qed.

Lemma ed25519_return_shape w pub priv err w' :
  (let* (pub, key, err) := ed25519_GenerateKey E in
   ret (KEd25519Public pub, KEd25519Private key, err)) w = (Done (pub, priv, err), w') →
  generated_pair Ed25519 pub priv w w'.
Proof.
  unfold bind, ed25519_GenerateKey.
  destruct (ed25519_generate E (reader w)) as [[[p s] e] rd]; simpl.
  intros [= <- <- <- <-]. repeat split. by eexists _, _.
Qed.

(** Every way [KeygenSig] can return: the request turned down, or one
    generator call on a scheme the identifier and the size allow. *)
Lemma KeygenSig_returns (alg : string) (bits : Z) w pub priv err w' :
  KeygenSig E alg bits w = (Done (pub, priv, err), w') →
  (pub = KNil ∧ priv = KNil ∧ is_Some err ∧ w' = w) ∨
  ∃ s, generated_pair s pub priv w w' ∧ allowed_scheme s ∧
       match s with
       | OnCurve _ => alg ∈ [jose.ES256; jose.ES384; jose.ES512]
       | Ed25519 => alg = jose.EdDSA
       | RsaModulus _ => alg ∈ rsa_sig_algs
       end.
Proof.
  unfold KeygenSig, KeygenSig_check.
  destruct (case_of alg [jose.ES256; jose.ES384; jose.ES512; jose.EdDSA]) eqn:Hc.
  - destruct (_ && _).
    { intros [= <- <- <- <-]. left. by repeat split. }
    unfold case_of in *. apply bool_decide_eq_true_1 in Hc.
    repeat (case_bool_decide;
      [first
         [ intros Hrun; right;
           first [ apply ecdsa_return_shape in Hrun
                 | apply ed25519_return_shape in Hrun ];
           eexists; split; [exact Hrun|]; split; [exact I|]; cbv beta iota
         | exfalso ];
       rewrite ?elem_of_cons in *; rewrite ?elem_of_nil in *; tauto|]).
    exfalso.
    rewrite ?elem_of_cons in *. rewrite ?elem_of_nil in *. tauto.
  - destruct (case_of alg [jose.RS256; jose.RS384; jose.RS512;
                           jose.PS256; jose.PS384; jose.PS512]) eqn:Hr.
    + cbv zeta. case_bool_decide as Hlt.
      { intros [= <- <- <- <-]. left. by repeat split. }
      apply bool_decide_eq_false_1 in Hc. apply bool_decide_eq_true_1 in Hr.
      rewrite !case_of_false by sublist_absent Hc.
      intros Hrun. right. apply rsa_return_shape in Hrun.
      eexists. split; [exact Hrun|]. split; [simpl; lia|exact Hr].
    + apply bool_decide_eq_false_1 in Hc.
      rewrite !case_of_false by sublist_absent Hc.
      intros [= <- <- <- <-]. left. by repeat split.
Qed.

(** The same for [KeygenEnc]. *)
Lemma KeygenEnc_returns (alg : string) (bits : Z) w pub priv err w' :
  KeygenEnc E alg bits w = (Done (pub, priv, err), w') →
  (pub = KNil ∧ priv = KNil ∧ is_Some err ∧ w' = w) ∨
  ∃ s, generated_pair s pub priv w w' ∧ allowed_scheme s ∧
       match s with
       | OnCurve _ => alg ∈ ecdh_enc_algs
       | Ed25519 => False
       | RsaModulus _ => alg ∈ rsa_enc_algs
       end.
Proof.
  unfold KeygenEnc.
  destruct (case_of alg [jose.RSA1_5; jose.RSA_OAEP; jose.RSA_OAEP_256]) eqn:Hr.
  - cbv zeta. case_bool_decide as Hlt.
    { intros [= <- <- <- <-]. left. by repeat split. }
    intros Hrun. right. apply rsa_return_shape in Hrun.
    eexists. split; [exact Hrun|]. split; [simpl; lia|].
    by apply bool_decide_eq_true_1 in Hr.
  - destruct (case_of alg [jose.ECDH_ES; jose.ECDH_ES_A128KW;
                           jose.ECDH_ES_A192KW; jose.ECDH_ES_A256KW]) eqn:Hc.
    + apply bool_decide_eq_true_1 in Hc.
      repeat (case_bool_decide;
        [intros Hrun; right; apply ecdsa_return_shape in Hrun;
         eexists; split; [exact Hrun|]; split; [exact I|exact Hc]|]).
      intros [= <- <- <- <-]. left. by repeat split.
    + intros [= <- <- <- <-]. left. by repeat split.
Qed.

End KeygenShape.

Section KeygenExtras.
Context (E : Env).

(** A returned pair is never half set: the public key is nil exactly when
    the private key is, a nil pair comes with an error, and under every
    identifier but EdDSA the public key is the public half of the private
    key returned. *)
Theorem Keygen_pair_coherent (alg : string) (bits : Z) w pub priv err w' :
  KeygenSig E alg bits w = (Done (pub, priv, err), w') ∨
  KeygenEnc E alg bits w = (Done (pub, priv, err), w') →
  (pub = KNil ↔ priv = KNil) ∧
  (priv = KNil → is_Some err ∧ w' = w) ∧
  (priv ≠ KNil → alg ≠ jose.EdDSA → public_of priv = Some pub).
Proof.
  intros [H|H].
  - apply KeygenSig_returns in H as [(-> & -> & He & ->)|(s & (_ & _ & _ & Hs) & _ & Ha)].
    { by repeat split. }
    destruct s as [c| |b].
    + destruct Hs as (k & -> & ->). by repeat split.
    + destruct Hs as (p & s & -> & ->). by repeat split.
    + destruct Hs as (k & -> & ->). by repeat split.
  - apply KeygenEnc_returns in H as [(-> & -> & He & ->)|(s & (_ & _ & _ & Hs) & _ & Ha)].
    { by repeat split. }
    destruct s as [c| |b]; [|done|].
    + destruct Hs as (k & -> & ->). by repeat split.
    + destruct Hs as (k & -> & ->). by repeat split.
Qed.


End KeygenExtras.

(** ** pemBlockForKey *)

Section Pem.
Context (X : X509).

(** When [pemBlockForKey] returns, it returns a block or an error, never
    both and never neither, and the world is as it was. *)
Theorem pemBlockForKey_block_or_error (priv : Key) w blk err w' :
  pemBlockForKey X priv w = (Done (blk, err), w') →
  w' = w ∧ ((is_Some blk ∧ err = None) ∨ (blk = None ∧ is_Some err)).
Proof.
  unfold pemBlockForKey, bind, pure_call, ret.
  destruct priv as [ |p|p|p|p|s|s]; try (intros [= <- <- <-]; split; [done|right; eauto]).
  - destruct (x509_MarshalECPrivateKey X p) as [[b [e|]]| |]; intros [= <- <- <-];
      (split; [done|]); [right|left]; eauto.
  - destruct (x509_MarshalPKCS1PrivateKey X p) as [b| |]; intros [= <- <- <-].
    split; [done|]. left. eauto.
Qed.

(** The block names the family of the key: a block comes only of an RSA
    or an ECDSA private key, typed after it and holding what the x509
    encoder of that family made of the key. *)
Theorem pemBlockForKey_block_family (priv : Key) w b w' :
  pemBlockForKey X priv w = (Done (Some b, None), w') →
  (∃ k, priv = KRsaPrivate k ∧ pem_Type b = "RSA PRIVATE KEY" ∧
        x509_MarshalPKCS1PrivateKey X k = Done (pem_Bytes b)) ∨
  (∃ k, priv = KEcdsaPrivate k ∧ pem_Type b = "EC PRIVATE KEY" ∧
        x509_MarshalECPrivateKey X k = Done (pem_Bytes b, None)).
Proof.
  unfold pemBlockForKey, bind, pure_call, ret.
  destruct priv as [ |p|p|p|p|s|s]; try discriminate.
  - destruct (x509_MarshalECPrivateKey X p) as [[bytes [e|]]| |] eqn:Hm; intros [= <- <-].
    right. by exists p.
  - destruct (x509_MarshalPKCS1PrivateKey X p) as [bytes| |] eqn:Hm; intros [= <- <-].
    left. by exists p.
Qed.

(** Of a pair the key generators returned, the public key is never
    encoded, and neither is the private key made under EdDSA: the answer
    is the unknown-key-type error.  A private key of the other families
    reaches its encoder with a key that is not nil. *)
Theorem pemBlockForKey_of_generated (E : Env) (alg : string) (bits : Z)
    w pub priv err w' (w2 : World) :
  KeygenSig E alg bits w = (Done (pub, priv, err), w') ∨
  KeygenEnc E alg bits w = (Done (pub, priv, err), w') →
  pemBlockForKey X pub w2 = (Done (None, Some ErrUnknownKeyType), w2) ∧
  (alg = jose.EdDSA ∨ priv = KNil →
   pemBlockForKey X priv w2 = (Done (None, Some ErrUnknownKeyType), w2)) ∧
  (alg ≠ jose.EdDSA → priv ≠ KNil →
   (∃ k, priv = KRsaPrivate (Some k)) ∨ (∃ k, priv = KEcdsaPrivate (Some k))).
Proof.
  intros H.
  assert (Hshape :
    (pub = KNil ∧ priv = KNil) ∨
    (∃ k, priv = KEcdsaPrivate (Some k) ∧ pub = KEcdsaPublic (Some (ec_PublicKey k)) ∧
          alg ≠ jose.EdDSA) ∨
    (∃ k, priv = KRsaPrivate (Some k) ∧ pub = KRsaPublic (Some (rsa_PublicKey_of k)) ∧
          alg ≠ jose.EdDSA) ∨
    (∃ p s, pub = KEd25519Public p ∧ priv = KEd25519Private s)).
  { destruct H as [H|H].
    - apply KeygenSig_returns in H as [(-> & -> & _)|(s & (_ & _ & _ & Hs) & _ & Ha)];
        [by left|].
      destruct s as [c| |b].
      + destruct Hs as (k & -> & ->). right. left. exists k. repeat split.
        intros ->. revert Ha. apply (bool_decide_unpack _). by vm_compute.
      + destruct Hs as (p & s & -> & ->). right. right. right. by exists p, s.
      + destruct Hs as (k & -> & ->). right. right. left. exists k. repeat split.
        intros ->. revert Ha. apply (bool_decide_unpack _). by vm_compute.
    - apply KeygenEnc_returns in H as [(-> & -> & _)|(s & (_ & _ & _ & Hs) & _ & Ha)];
        [by left|].
      destruct s as [c| |b]; [|done|].
      + destruct Hs as (k & -> & ->). right. left. exists k. repeat split.
        intros ->. revert Ha. apply (bool_decide_unpack _). by vm_compute.
      + destruct Hs as (k & -> & ->). right. right. left. exists k. repeat split.
        intros ->. revert Ha. apply (bool_decide_unpack _). by vm_compute. }
  destruct Hshape as [[-> ->]|[(k & -> & -> & Hn)|[(k & -> & -> & Hn)|(p & s & -> & ->)]]];
    (split; [reflexivity|]); split.
  - done.
  - done.
  - by intros [?|?].
  - intros _ _. right. by exists k.
  - by intros [?|?].
  - intros _ _. left. by exists k.
  - done.
  - intros Ha _. exfalso. destruct H as [H|H].
    + apply KeygenSig_returns in H as [(_ & [=] & _)|(s' & (_ & _ & _ & Hs) & _ & Hal)].
      destruct s' as [c| |b]; [by destruct Hs as (? & [=] & _)|done|
                               by destruct Hs as (? & [=] & _)].
    + apply KeygenEnc_returns in H as [(_ & [=] & _)|(s' & (_ & _ & _ & Hs) & _ & Hal)].
      destruct s' as [c| |b]; [by destruct Hs as (? & [=] & _)|done|
                               by destruct Hs as (? & [=] & _)].
Qed.

End Pem.

(** ** Further properties of the file writer *)

Section WriterExtras.
Context (E : Env).

(** On a path that exists the call is over after the open. *)
Lemma writeNewFile_refused (name : string) (data : list byte) (perm : Z) w f :
  files w !! name = Some f →
  writeNewFile E name data perm w =
    (Done (Some (os_PathError "open" name EEXIST)),
     emit (EvOpenFile name new_file_flags perm) w).
Proof.
  intros H. unfold writeNewFile, bind, os_OpenFile. fold new_file_flags.
  cbn [files emit]. by rewrite H, new_file_flags_excl.
Qed.

(** The world after a call on a free path that can be created. *)
Lemma writeNewFile_created (name : string) (data : list byte) (perm : Z) w :
  files w !! name = None → create_fault E name = None →
  writeNewFile E name data perm w =
    (Done (write_outcome (write_result E name data).2 (write_result E name data).1
             (Z.of_nat (length data)) (close_result E name)),
     emit (EvClose name)
       (set_files
          (<[name := {| f_data := take (Z.to_nat (write_result E name data).1) data;
                        f_mode := Z.ldiff (Z.land perm (octal 7 7 7)) (umask w) |}]>
             (files w))
          (emit (EvWrite name data) (emit (EvOpenFile name new_file_flags perm) w)))).
Proof.
  intros Hfree Hok. unfold writeNewFile, bind, os_OpenFile. fold new_file_flags.
  cbn [files emit]. rewrite Hfree, Hok.
  change (has_flag new_file_flags O_CREATE) with true. cbv iota.
  unfold file_Write, file_Close, write_outcome.
  destruct (write_result E name data) as [n [e|]]; cbn [fst snd];
    [|destruct (bool_decide (n < Z.of_nat (length data)))];
    unfold ret; cbn [files emit set_files umask reader log];
    rewrite alter_insert_eq; reflexivity.
Qed.

(** The world after a call on a free path that cannot be created. *)
Lemma writeNewFile_faulted (name : string) (data : list byte) (perm : Z) w e :
  files w !! name = None → create_fault E name = Some e →
  writeNewFile E name data perm w =
    (Done (Some (os_PathError "open" name e)),
     emit (EvOpenFile name new_file_flags perm) w).
Proof.
  intros Hfree Hf. unfold writeNewFile, bind, os_OpenFile. fold new_file_flags.
  cbn [files emit]. rewrite Hfree, Hf.
  by change (has_flag new_file_flags O_CREATE) with true.
Qed.

(** A nil error means the file is there: the path was free before the
    call, and after it holds exactly the payload, with the permission
    asked for less the umask. *)
Theorem writeNewFile_nil_means_written (name : string) (data : list byte) (perm : Z)
    w w' :
  writeNewFile E name data perm w = (Done None, w') →
  files w !! name = None ∧
  files w' = <[name := new_file data perm (umask w)]> (files w).
Proof.
  intros H. destruct (files w !! name) as [f|] eqn:Hf.
  { by rewrite (writeNewFile_refused _ _ _ _ _ Hf) in H. }
  split; [reflexivity|].
  destruct (create_fault E name) as [e|] eqn:Hc.
  { by rewrite (writeNewFile_faulted _ _ _ _ _ Hf Hc) in H. }
  rewrite (writeNewFile_created _ _ _ _ Hf Hc) in H.
  injection H as Ho <-. cbn [files set_files emit]. unfold new_file. do 2 f_equal.
  unfold write_outcome in Ho.
  destruct (write_result E name data) as [n [e|]]; cbn [fst snd] in *; [done|].
  case_bool_decide; [done|]. apply take_ge. lia.
Qed.

(** Whatever the outcome, only the path of the call can change: every
    other path maps to what it did, and the umask and the entropy are as
    they were. *)
Theorem writeNewFile_frame (name other : string) (data : list byte) (perm : Z) w :
  other ≠ name →
  files (writeNewFile E name data perm w).2 !! other = files w !! other ∧
  umask (writeNewFile E name data perm w).2 = umask w ∧
  reader (writeNewFile E name data perm w).2 = reader w.
Proof.
  intros Hne. destruct (files w !! name) as [f|] eqn:Hf.
  { by rewrite (writeNewFile_refused _ _ _ _ _ Hf). }
  destruct (create_fault E name) as [e|] eqn:Hc.
  { by rewrite (writeNewFile_faulted _ _ _ _ _ Hf Hc). }
  rewrite (writeNewFile_created _ _ _ _ Hf Hc). cbn [snd files set_files emit umask reader].
  by rewrite lookup_insert_ne.
Qed.

(** Nothing is cleaned up: once a call got as far as creating the file,
    even if its write failed or fell short, the path is taken, and a
    second call on it is refused with the file-exists error and leaves
    what the first call left. *)
Theorem writeNewFile_twice (name : string) (d1 d2 : list byte) (p1 p2 : Z) w :
  create_fault E name = None →
  let w1 := (writeNewFile E name d1 p1 w).2 in
  is_Some (files w1 !! name) ∧
  (writeNewFile E name d2 p2 w1).1 = Done (Some (os_PathError "open" name EEXIST)) ∧
  files (writeNewFile E name d2 p2 w1).2 = files w1.
Proof.
  intros Hc w1.
  assert (Hex : is_Some (files w1 !! name)).
  { subst w1. destruct (files w !! name) as [f|] eqn:Hf.
    - rewrite (writeNewFile_refused _ _ _ _ _ Hf). cbn [snd files emit]. by rewrite Hf.
    - rewrite (writeNewFile_created _ _ _ _ Hf Hc). cbn [snd files set_files emit].
      rewrite lookup_insert_eq. eauto. }
  split; [exact Hex|]. destruct Hex as [f Hf].
  by rewrite (writeNewFile_refused _ _ _ _ _ Hf).
Qed.

End WriterExtras.

(** ** Further properties of the namer *)

(** The four names of one run differ from one another, whatever the use,
    the algorithm and the key id are, so a run is never refused a file
    because of one it wrote itself. *)
Theorem artifact_names_of_a_run_differ (u a i : string) :
  NoDup [ artifact_name SingleKey true u a i; artifact_name SingleKey false u a i;
          artifact_name KeySet true u a i; artifact_name KeySet false u a i ].
Proof.
  assert (Hsuf : ∀ k, artifact_name k true u a i ≠ artifact_name k false u a i).
  { intros k H. rewrite !artifact_name_stem in H.
    apply (inj (String.app _)) in H. apply (f_equal chars) in H.
    rewrite !chars_app in H. apply app_inv_head in H. discriminate H. }
  assert (Hkind : ∀ p q, artifact_name SingleKey p u a i ≠ artifact_name KeySet q u a i).
  { intros p q H. unfold artifact_name, kind_tag in H.
    apply (f_equal chars) in H. rewrite !chars_app in H. discriminate H. }
  repeat constructor; rewrite ?elem_of_cons, ?elem_of_nil;
    intros H; repeat destruct H as [H|H]; try done;
    first [ by eapply Hsuf | by eapply Hkind | symmetry in H; by eapply Hkind ].
Qed.

(** ** What a run of [main] leaves of the file system *)

Lemma keeps_ret {A} (a : A) : keeps_files (ret a).
Proof. by intros w. Qed.

Lemma keeps_bind {A B} (m : M A) (k : A → M B) :
  keeps_files m → (∀ a, keeps_files (k a)) → keeps_files (bind m k).
Proof.
  intros Hm Hk w. unfold bind. specialize (Hm w).
  destruct (m w) as [[a|msg|c] w1]; simpl in *; try done.
  specialize (Hk a w1). destruct Hm as [S1 U1], Hk as [S2 U2].
  split; [by etrans|congruence].
Qed.

Lemma keeps_logging {A} (o : Outcome A) (e : Event) : keeps_files (λ w, (o, emit e w)).
Proof. by intros w. Qed.

Lemma keeps_FatalIfError err f args : keeps_files (FatalIfError err f args).
Proof. destruct err; [apply keeps_logging|apply keeps_ret]. Qed.

Lemma keeps_rand_Read b : keeps_files (rand_Read b).
Proof. intros w. unfold rand_Read. by case_bool_decide. Qed.

Section Keeps.
Context (E : Env).

Lemma keeps_ecdsa_return (c : Curve) :
  keeps_files (let* (key, err) := ecdsa_GenerateKey E c in
               let* pub := ecdsa_Public key in
               ret (pub, KEcdsaPrivate key, err)).
Proof.
  intros w. unfold bind, ecdsa_GenerateKey.
  by destruct (ecdsa_generate E c (reader w)) as [[[k|] err] rd].
Qed.

Lemma keeps_rsa_return (bits : Z) :
  keeps_files (let* (key, err) := rsa_GenerateKey E bits in
               let* pub := rsa_Public key in
               ret (pub, KRsaPrivate key, err)).
Proof.
  intros w. unfold bind, rsa_GenerateKey.
  by destruct (rsa_generate E bits (reader w)) as [[[k|] err] rd].
Qed.

Lemma keeps_ed25519_return :
  keeps_files (let* (pub, key, err) := ed25519_GenerateKey E in
               ret (KEd25519Public pub, KEd25519Private key, err)).
Proof.
  intros w. unfold bind, ed25519_GenerateKey.
  by destruct (ed25519_generate E (reader w)) as [[[pub key] err] rd].
Qed.

Lemma keeps_KeygenSig alg bits : keeps_files (KeygenSig E alg bits).
Proof.
  unfold KeygenSig. destruct (KeygenSig_check alg bits); [apply keeps_ret|].
  repeat (destruct (case_of alg _);
    [first [apply keeps_ecdsa_return | apply keeps_ed25519_return
           | apply keeps_rsa_return]|]).
  apply keeps_ret.
Qed.

Lemma keeps_KeygenEnc alg bits : keeps_files (KeygenEnc E alg bits).
Proof.
  unfold KeygenEnc. destruct (case_of alg _).
  { cbv zeta. case_bool_decide; [apply keeps_ret|apply keeps_rsa_return]. }
  destruct (case_of alg _); [|apply keeps_ret].
  repeat (case_bool_decide; [apply keeps_ecdsa_return|]). apply keeps_ret.
Qed.

Lemma keeps_writeNewFile name data perm : keeps_files (writeNewFile E name data perm).
Proof.
  intros w. destruct (files w !! name) as [f|] eqn:Hf.
  { by rewrite (writeNewFile_refused _ _ _ _ _ _ Hf). }
  destruct (create_fault E name) as [e|] eqn:Hc.
  { by rewrite (writeNewFile_faulted _ _ _ _ _ _ Hf Hc). }
  rewrite (writeNewFile_created _ _ _ _ _ Hf Hc). cbn [snd files set_files emit umask].
  split; [by apply insert_subseteq|done].
Qed.

(** Walk through a program of the monad. *)
Ltac keeps :=
  repeat first
    [ apply keeps_ret | apply keeps_logging | apply keeps_FatalIfError
    | apply keeps_rand_Read | apply keeps_KeygenSig | apply keeps_KeygenEnc
    | apply keeps_writeNewFile
    | apply keeps_bind; [|intros ?; cbv beta]
    | match goal with
      | |- keeps_files (if ?b then _ else _) => destruct b
      | |- keeps_files (let '(_, _) := ?x in _) => destruct x
      | |- keeps_files (match ?x with _ => _ end) => destruct x
      end ].

(** A run of [main] never changes or removes a file it finds, whatever
    its flags, its environment and its outcome: every path that was there
    before the run maps to the same contents and permissions after it. *)
Theorem main_keeps_existing_files (fl : Flags) (w : World) (name : string) (f : File) :
  files w !! name = Some f →
  files (main E fl w).2 !! name = Some f.
Proof.
  intros H. assert (K : keeps_files (main E fl)).
  { unfold main, Printf, Println, FatalUsage, Fatalf, trace. keeps. }
  destruct (K w) as [S _]. by eapply lookup_weaken.
Qed.

End Keeps.

(** ** Further properties of [main] *)

Section MainExtras.
Context (E : Env).

(** Without [--kid-rand] the run starts with the key generation. *)
Lemma main_starts_with_keygen (fl : Flags) (w : World) :
  kidRand fl = false →
  (∀ msg w1, main_keygen E fl w = (Panic msg, w1) → main E fl w = (Panic msg, w1)) ∧
  (∀ pub priv e w1,
     main_keygen E fl w = (Done (pub, priv, Some e), w1) →
     main E fl w = (Exit 1, emit (EvStderr "unable to generate key" []) w1)).
Proof.
  intros Hr. unfold main, main_keygen. rewrite Hr. unfold bind.
  change (ret (kid fl) w) with (Done (kid fl), w). cbv beta iota.
  split.
  - intros msg w1 H. by rewrite H.
  - intros pub priv e w1 H. by rewrite H.
Qed.

(** [--kid] together with [--kid-rand] ends the run at once with status 1:
    no entropy is read, no key generated, nothing written or printed. *)
Theorem main_kid_and_kid_rand (fl : Flags) (w : World) :
  kidRand fl = true → kid fl ≠ "" →
  main E fl w = (Exit 1, emit (EvStderr "can't combine --kid and --kid-rand" []) w).
Proof.
  intros Hr Hk. unfold main. rewrite Hr, bool_decide_eq_false_2 by exact Hk.
  reflexivity.
Qed.

(** A key generation that fails ends the run: a panic of the generator is
    the panic of the program, and an error it returns makes the program
    exit with status 1 at once, leaving the world as the generator left it
    but for the message. *)
Theorem main_stops_at_failed_keygen (fl : Flags) (w : World) :
  kidRand fl = false →
  (∀ msg w1, main_keygen E fl w = (Panic msg, w1) → main E fl w = (Panic msg, w1)) ∧
  (∀ pub priv e w1,
     main_keygen E fl w = (Done (pub, priv, Some e), w1) →
     main E fl w = (Exit 1, emit (EvStderr "unable to generate key" []) w1)).
Proof. apply main_starts_with_keygen. Qed.


(** Without a key id ([--kid] empty, no [--kid-rand]) a run opens and
    writes no file; if it completes, it has printed the public document
    and then the private one, of a pair that passed the public/private
    checks, followed with [--jwks] by the two key-set documents. *)
Theorem main_without_kid (fl : Flags) (w : World) :
  kidRand fl = false → kid fl = "" →
  ∃ l, log (main E fl w).2 = log w ++ l ∧
       opened l = [] ∧ written l = [] ∧
       ((main E fl w).1 = Done tt →
        ∃ pub priv,
          jwk_IsPublic E (web_key fl "" pub) = true ∧
          jwk_IsPublic E (web_key fl "" priv) = false ∧
          printed l = console_docs E fl "" pub priv).
Proof.
  intros Hr Hk.
  destruct (main_emits E fl w) as (l & Hl & [(Ho & O & W & P)|(id & pub & priv & K & Ipub & Ipriv & H)]).
  - exists l. by repeat split.
  - unfold kid_of_run in K. rewrite Hr, Hk in K. destruct K as [-> _].
    rewrite bool_decide_eq_true_2 in H by reflexivity.
    destruct H as (Ho & O & W & P). exists l. repeat split; try done.
    intros _. by exists pub, priv.
Qed.

(** No run both prints documents and opens files: the console and the
    file system are alternatives. *)
Theorem main_prints_or_writes (fl : Flags) (w : World) :
  ∃ l, log (main E fl w).2 = log w ++ l ∧
       (printed l = [] ∨ (opened l = [] ∧ written l = [])).
Proof.
  destruct (main_emits E fl w) as (l & Hl & [(Ho & O & W & P)|(id & pub & priv & _ & _ & _ & H)]).
  - exists l. split; [exact Hl|]. by left.
  - exists l. split; [exact Hl|]. case_bool_decide.
    + right. by destruct H as (_ & O & W & _).
    + left. by destruct H as (P & _).
Qed.

End MainExtras.

(** *** The further properties at concrete inputs *)

Lemma Keygen_pair_coherent_witness :
  ∃ pub priv err w',
    KeygenSig demo_env jose.ES384 0 (demo_world [7]) = (Done (pub, priv, err), w') ∧
    (pub = KNil ↔ priv = KNil) ∧
    (priv = KNil → is_Some err ∧ w' = demo_world [7]) ∧
    (priv ≠ KNil → jose.ES384 ≠ jose.EdDSA → public_of priv = Some pub).
Proof.
  eexists _, _, _, _. split; [reflexivity|].
  apply (Keygen_pair_coherent demo_env jose.ES384 0 (demo_world [7])).
  left. reflexivity.
Defined.


Lemma pemBlockForKey_block_or_error_witness :
  pemBlockForKey demo_x509 (KEcdsaPublic None) (demo_world []) =
    (Done (None, Some ErrUnknownKeyType), demo_world []) ∧
  demo_world [] = demo_world [] ∧
  ((is_Some (None : ptr pem_Block) ∧ Some ErrUnknownKeyType = None) ∨
   ((None : ptr pem_Block) = None ∧ is_Some (Some ErrUnknownKeyType))).
Proof.
  split; [reflexivity|].
  apply (pemBlockForKey_block_or_error demo_x509 (KEcdsaPublic None) (demo_world [])).
  reflexivity.
Defined.

Lemma pemBlockForKey_block_family_witness :
  pemBlockForKey demo_x509 (KRsaPrivate (Some demo_rsa_key)) (demo_world []) =
    (Done (Some {| pem_Type := "RSA PRIVATE KEY"; pem_Bytes := [413] |}, None),
     demo_world []) ∧
  ((∃ k, KRsaPrivate (Some demo_rsa_key) = KRsaPrivate k ∧
         "RSA PRIVATE KEY" = "RSA PRIVATE KEY" ∧
         x509_MarshalPKCS1PrivateKey demo_x509 k = Done [413]) ∨
   (∃ k, KRsaPrivate (Some demo_rsa_key) = KEcdsaPrivate k ∧
         "RSA PRIVATE KEY" = "EC PRIVATE KEY" ∧
         x509_MarshalECPrivateKey demo_x509 k = Done ([413], None))).
Proof.
  split; [reflexivity|].
  apply (pemBlockForKey_block_family demo_x509 (KRsaPrivate (Some demo_rsa_key))
           (demo_world []) {| pem_Type := "RSA PRIVATE KEY"; pem_Bytes := [413] |}
           (demo_world [])).
  reflexivity.
Defined.

Lemma pemBlockForKey_of_generated_witness :
  ∃ pub priv err w',
    KeygenSig demo_env jose.EdDSA 0 (demo_world [7]) = (Done (pub, priv, err), w') ∧
    pemBlockForKey demo_x509 pub w' = (Done (None, Some ErrUnknownKeyType), w') ∧
    pemBlockForKey demo_x509 priv w' = (Done (None, Some ErrUnknownKeyType), w').
Proof.
  eexists _, _, _, _. split; [reflexivity|].
  destruct (pemBlockForKey_of_generated demo_x509 demo_env jose.EdDSA 0
              (demo_world [7]) _ _ _ _ (demo_world [7]) (or_introl eq_refl))
    as (Hpub & Hpriv & _).
  split; [reflexivity|]. reflexivity.
Defined.

Lemma writeNewFile_nil_means_written_witness :
  let r := writeNewFile demo_env "k.json" [9; 9] (octal 4 0 0) (demo_world []) in
  r = (Done None, r.2) ∧
  files (demo_world []) !! "k.json" = None ∧
  files r.2 = <[ "k.json" := new_file [9; 9] (octal 4 0 0) 18 ]> ∅.
Proof.
  intros r. assert (H : r = (Done None, r.2)) by (vm_compute; reflexivity).
  split; [exact H|].
  apply (writeNewFile_nil_means_written demo_env "k.json" [9; 9] (octal 4 0 0)
           (demo_world []) r.2 H).
Defined.

Lemma writeNewFile_frame_witness :
  "other.json" ≠ "k.json" ∧
  files (writeNewFile demo_env "k.json" [9] (octal 4 0 0)
           (demo_world_with_file [])).2 !! "other.json" =
    files (demo_world_with_file []) !! "other.json".
Proof.
  assert (H : "other.json" ≠ "k.json") by discriminate.
  split; [exact H|].
  apply (writeNewFile_frame demo_env "k.json" "other.json" [9] (octal 4 0 0)
           (demo_world_with_file []) H).
Defined.

Lemma writeNewFile_twice_witness :
  create_fault demo_env "k.json" = None ∧
  (writeNewFile demo_env "k.json" [8] (octal 4 4 4)
     (writeNewFile demo_env "k.json" [9] (octal 4 0 0) (demo_world [])).2).1 =
    Done (Some (os_PathError "open" "k.json" EEXIST)).
Proof.
  split; [reflexivity|].
  apply (writeNewFile_twice demo_env "k.json" [9] [8] (octal 4 0 0) (octal 4 4 4)
           (demo_world []) eq_refl).
Defined.

Lemma main_keeps_existing_files_witness :
  files (demo_world_with_file [1; 2; 3]) !! "jwk_enc_ECDH-ES_k1.json" = Some demo_file ∧
  files (main demo_env demo_flags_kid (demo_world_with_file [1; 2; 3])).2
    !! "jwk_enc_ECDH-ES_k1.json" = Some demo_file.
Proof.
  assert (H : files (demo_world_with_file [1; 2; 3]) !! "jwk_enc_ECDH-ES_k1.json"
              = Some demo_file) by reflexivity.
  split; [exact H|].
  apply (main_keeps_existing_files demo_env demo_flags_kid _ _ _ H).
Defined.

Lemma main_kid_and_kid_rand_witness :
  let fl := {| use := "sig"; alg := jose.ES256; bits := 0; kid := "k1";
               kidRand := true; jwks := false; format := false |} in
  kidRand fl = true ∧ kid fl ≠ "" ∧
  (main demo_env fl (demo_world [1; 2; 3])).1 = Exit 1.
Proof.
  intros fl. assert (H : kid fl ≠ "") by discriminate.
  split; [reflexivity|]. split; [exact H|].
  by rewrite (main_kid_and_kid_rand demo_env fl (demo_world [1; 2; 3]) eq_refl H).
Defined.

Lemma main_stops_at_failed_keygen_witness :
  let fl := {| use := "sig"; alg := jose.RS256; bits := 1024; kid := "k1";
               kidRand := false; jwks := false; format := false |} in
  main_keygen demo_env fl (demo_world [1]) =
    (Done (KNil, KNil, Some ErrKeyTooShort), demo_world [1]) ∧
  main demo_env fl (demo_world [1]) =
    (Exit 1, emit (EvStderr "unable to generate key" []) (demo_world [1])).
Proof.
  intros fl. split; [reflexivity|].
  destruct (main_stops_at_failed_keygen demo_env fl (demo_world [1]) eq_refl) as [_ H].
  apply (H KNil KNil ErrKeyTooShort). reflexivity.
Defined.


Lemma main_without_kid_witness :
  let fl := {| use := "sig"; alg := jose.EdDSA; bits := 0; kid := "";
               kidRand := false; jwks := true; format := false |} in
  kidRand fl = false ∧ kid fl = "" ∧
  ∃ l, log (main demo_env fl (demo_world [5])).2 = log (demo_world [5]) ++ l ∧
       opened l = [] ∧ written l = [] ∧
       ((main demo_env fl (demo_world [5])).1 = Done tt →
        ∃ pub priv,
          jwk_IsPublic demo_env (web_key fl "" pub) = true ∧
          jwk_IsPublic demo_env (web_key fl "" priv) = false ∧
          printed l = console_docs demo_env fl "" pub priv).
Proof.
  intros fl. split; [reflexivity|]. split; [reflexivity|].
  exact (main_without_kid demo_env fl (demo_world [5]) eq_refl eq_refl).
Defined.
